(** * Transport glue of the RPC core: [src/core/lib/transport/transport.cc]

    A shallow embedding of the stream reference count, the failure
    propagation for stream operation batches, the synthetic-op factories and
    the polling-entity dispatch, followed by the properties established
    about them.

    Effects are explicit.  A [World] holds what the functions of the file can
    touch: the thread's execution context (flags and pending closure list),
    the default event engine's task queue, the entries handed to call
    combiners, the allocations made by the factories, and a trace of the
    observable calls, in program order. *)

From stdpp Require Import base gmap list strings.
From Stdlib Require Import ZArith.

Local Open Scope string_scope.
Local Open Scope Z_scope.
Local Open Scope list_scope.

(** ** Data *)

(** Addresses of heap objects.  A nullable pointer is an [option]. *)
Definition addr := positive.

(** [grpc_error_handle] is [absl::Status]. *)
Inductive grpc_error_handle : Type :=
| OkStatus
| ErrorStatus (code : Z) (message : string).

(** [grpc_iomgr_cb_func]: the function a closure calls.  The two static
    functions of this file are the only ones whose body is known here; every
    other callback is code of the caller. *)
Inductive grpc_iomgr_cb_func : Type :=
| cb_external (f : positive)
| cb_destroy_made_transport_op
| cb_destroy_made_transport_stream_op.

(** [grpc_closure], as [GRPC_CLOSURE_INIT] fills it.  A zeroed closure has a
    null [cb] and a null [cb_arg].  A [grpc_closure*] is embedded as the
    closure it points to, [None] being [nullptr]. *)
Record grpc_closure : Type := Closure {
  cb : option grpc_iomgr_cb_func;
  cb_arg : option addr
}.

Definition zeroed_closure : grpc_closure := Closure None None.

Definition GRPC_CLOSURE_INIT (cb : option grpc_iomgr_cb_func) (cb_arg : option addr)
  : grpc_closure :=
  Closure cb cb_arg.

(** [grpc_core::RefCount]: the counter and its trace tag. *)
Record RefCount : Type := mkRefCount {
  value : Z;
  trace_tag : option string
}.

(** [grpc_stream_refcount] of a build without [NDEBUG] (the other build has
    no [object_type]). *)
Record grpc_stream_refcount : Type := mkStreamRefcount {
  refs : RefCount;
  destroy : grpc_closure;
  object_type : option string
}.

(** [grpc_transport_stream_op_batch_payload]: the members the file reads.
    In the source each closure sits in a sub-struct of the same name as the
    batch flag ([payload->recv_message.recv_message_ready]). *)
Record grpc_transport_stream_op_batch_payload : Type := mkPayload {
  recv_initial_metadata_ready : option grpc_closure;
  recv_message_ready : option grpc_closure;
  recv_trailing_metadata_ready : option grpc_closure
}.

(** [grpc_transport_stream_op_batch].  [payload] is a pointer in the source;
    the batch carries the payload it points to. *)
Record grpc_transport_stream_op_batch : Type := mkBatch {
  on_complete : option grpc_closure;
  payload : grpc_transport_stream_op_batch_payload;
  send_initial_metadata : bool;
  send_trailing_metadata : bool;
  send_message : bool;
  recv_initial_metadata : bool;
  recv_message : bool;
  recv_trailing_metadata : bool;
  cancel_stream : bool
}.

Definition empty_payload : grpc_transport_stream_op_batch_payload :=
  mkPayload None None None.

Definition empty_batch : grpc_transport_stream_op_batch :=
  mkBatch None empty_payload false false false false false false false.

(** [grpc_transport_op]: only [on_consumed] is used here. *)
Record grpc_transport_op : Type := mkTransportOp {
  on_consumed : option grpc_closure
}.

(** [struct made_transport_op]. *)
Record made_transport_op : Type := mkMadeTransportOp {
  mto_outer_on_complete : grpc_closure;
  mto_inner_on_complete : option grpc_closure;
  mto_op : grpc_transport_op
}.

(** [struct made_transport_stream_op].  Its [payload] member is the one
    [op.payload] points to, held in [mtso_op]. *)
Record made_transport_stream_op : Type := mkMadeTransportStreamOp {
  mtso_outer_on_complete : grpc_closure;
  mtso_inner_on_complete : option grpc_closure;
  mtso_op : grpc_transport_stream_op_batch
}.

(** What [new] has allocated in this file. *)
Inductive made_alloc : Type :=
| AllocTransportOp (o : made_transport_op)
| AllocTransportStreamOp (o : made_transport_stream_op).

(** An entry of a [CallCombinerClosureList]. *)
Record CallCombinerClosure : Type := mkEntry {
  entry_closure : option grpc_closure;
  entry_error : grpc_error_handle;
  entry_reason : string
}.

Definition CallCombinerClosureList := list CallCombinerClosure.

(** The work handed to the event engine: the lambda of
    [grpc_stream_destroy], which captures the refcount. *)
Inductive engine_task : Type :=
| StreamDestroyTask (refcount : grpc_stream_refcount).

(** Observable calls, in program order. *)
Inductive event : Type :=
| EvSchedule (c : grpc_closure) (e : grpc_error_handle)
| EvInvoke (c : grpc_closure) (e : grpc_error_handle)
| EvEngineRun (t : engine_task)
| EvCombinerStart (combiner : addr) (entry : CallCombinerClosure)
| EvNew (a : addr)
| EvDelete (a : addr).

#[global] Instance grpc_error_handle_eq_dec : EqDecision grpc_error_handle.
Proof. solve_decision. Defined.
#[global] Instance grpc_iomgr_cb_func_eq_dec : EqDecision grpc_iomgr_cb_func.
Proof. solve_decision. Defined.
#[global] Instance grpc_closure_eq_dec : EqDecision grpc_closure.
Proof. solve_decision. Defined.
#[global] Instance RefCount_eq_dec : EqDecision RefCount.
Proof. solve_decision. Defined.
#[global] Instance grpc_stream_refcount_eq_dec : EqDecision grpc_stream_refcount.
Proof. solve_decision. Defined.
#[global] Instance CallCombinerClosure_eq_dec : EqDecision CallCombinerClosure.
Proof. solve_decision. Defined.
#[global] Instance engine_task_eq_dec : EqDecision engine_task.
Proof. solve_decision. Defined.
#[global] Instance event_eq_dec : EqDecision event.
Proof. solve_decision. Defined.

(** ** The world and the monad of effects *)

Record World : Type := mkWorld {
  exec_ctx_flags : Z;
  exec_ctx_closures : list (grpc_closure * grpc_error_handle);
  event_engine_tasks : list engine_task;
  call_combiner_work : list (addr * CallCombinerClosure);
  heap : gmap addr made_alloc;
  trace : list event
}.

Definition empty_world : World := mkWorld 0 [] [] [] ∅ [].

Definition set_exec_ctx (flags : Z)
    (closures : list (grpc_closure * grpc_error_handle)) (w : World) : World :=
  mkWorld flags closures (event_engine_tasks w) (call_combiner_work w)
          (heap w) (trace w).

Definition set_event_engine_tasks (tasks : list engine_task) (w : World) : World :=
  mkWorld (exec_ctx_flags w) (exec_ctx_closures w) tasks (call_combiner_work w)
          (heap w) (trace w).

Definition set_call_combiner_work (work : list (addr * CallCombinerClosure))
    (w : World) : World :=
  mkWorld (exec_ctx_flags w) (exec_ctx_closures w) (event_engine_tasks w) work
          (heap w) (trace w).

Definition set_heap (h : gmap addr made_alloc) (w : World) : World :=
  mkWorld (exec_ctx_flags w) (exec_ctx_closures w) (event_engine_tasks w)
          (call_combiner_work w) h (trace w).

Definition set_trace (t : list event) (w : World) : World :=
  mkWorld (exec_ctx_flags w) (exec_ctx_closures w) (event_engine_tasks w)
          (call_combiner_work w) (heap w) t.

(** A computation ends normally, or hits undefined behaviour (a dangling or
    mistyped pointer, a call through a null function pointer), or runs out of
    the fuel that bounds nested callback invocations. *)
Inductive outcome (A : Type) : Type :=
| Done (a : A) (w : World)
| Fault
| OutOfFuel.

Arguments Done {A} a w.
Arguments Fault {A}.
Arguments OutOfFuel {A}.

Definition M (A : Type) : Type := World -> outcome A.

Definition ret {A : Type} (a : A) : M A := fun w => Done a w.

Definition bind {A B : Type} (m : M A) (k : A -> M B) : M B :=
  fun w =>
    match m w with
    | Done a w' => k a w'
    | Fault => Fault
    | OutOfFuel => OutOfFuel
    end.

Notation "x <- m ;; k" := (bind m (fun x => k))
  (at level 100, m at next level, right associativity).
Notation "m ;; k" := (bind m (fun _ => k))
  (at level 100, right associativity).

Definition fault {A : Type} : M A := fun _ => Fault.
Definition out_of_fuel {A : Type} : M A := fun _ => OutOfFuel.

Definition emit (ev : event) : M unit :=
  fun w => Done tt (set_trace (trace w ++ [ev]) w).

(** ** Heap of the factories' allocations *)

Definition heap_new (v : made_alloc) : M addr :=
  fun w =>
    let a := fresh (dom (heap w)) in
    Done a (set_trace (trace w ++ [EvNew a]) (set_heap (<[a := v]> (heap w)) w)).

(** [delete p]: nothing happens for a null pointer; a pointer to no live
    allocation is undefined behaviour. *)
Definition heap_delete (arg : option addr) : M unit :=
  fun w =>
    match arg with
    | Some a =>
        match heap w !! a with
        | Some _ => Done tt (set_trace (trace w ++ [EvDelete a])
                                       (set_heap (delete a (heap w)) w))
        | None => Fault
        end
    | None => Done tt w
    end.

(** [static_cast<made_transport_op*>(arg)] followed by a read. *)
Definition load_made_transport_op (arg : option addr) : M made_transport_op :=
  fun w =>
    match arg with
    | Some a =>
        match heap w !! a with
        | Some (AllocTransportOp o) => Done o w
        | _ => Fault
        end
    | None => Fault
    end.

Definition load_made_transport_stream_op (arg : option addr)
  : M made_transport_stream_op :=
  fun w =>
    match arg with
    | Some a =>
        match heap w !! a with
        | Some (AllocTransportStreamOp o) => Done o w
        | _ => Fault
        end
    | None => Fault
    end.

Definition heap_store (a : addr) (v : made_alloc) : M unit :=
  fun w =>
    match heap w !! a with
    | Some _ => Done tt (set_heap (<[a := v]> (heap w)) w)
    | None => Fault
    end.

(** [new made_transport_op()] and [new made_transport_stream_op()]: the
    closure is zeroed, the inner pointer null, the op default-constructed. *)
Definition new_made_transport_op : M addr :=
  heap_new (AllocTransportOp
              (mkMadeTransportOp zeroed_closure None (mkTransportOp None))).

Definition new_made_transport_stream_op : M addr :=
  heap_new (AllocTransportStreamOp
              (mkMadeTransportStreamOp zeroed_closure None empty_batch)).

(** A write through [op->...]. *)
Definition update_made_transport_op (op : addr)
    (f : made_transport_op -> made_transport_op) : M unit :=
  o <- load_made_transport_op (Some op) ;;
  heap_store op (AllocTransportOp (f o)).

Definition update_made_transport_stream_op (op : addr)
    (f : made_transport_stream_op -> made_transport_stream_op) : M unit :=
  o <- load_made_transport_stream_op (Some op) ;;
  heap_store op (AllocTransportStreamOp (f o)).

(** ** External collaborators *)

(** Modelled from the spec: [grpc_core::ExecCtx::Run] is defined in
    exec_ctx.cc, which is not among the sources.  The execution context
    offers "a way to schedule a closure for later/immediate run with a given
    error": the closure joins the context's pending list with its error.  A
    null pointer names no closure and nothing is scheduled: the op wrapper
    passes the caller's [on_complete] to this call unguarded, and for an
    absent one "no forwarding occurs but the allocation is still
    reclaimed". *)
Definition ExecCtx_Run (closure : option grpc_closure)
    (error : grpc_error_handle) : M unit :=
  match closure with
  | None => ret tt
  | Some c =>
      fun w =>
        Done tt (set_trace (trace w ++ [EvSchedule c error])
                   (set_exec_ctx (exec_ctx_flags w)
                                 (exec_ctx_closures w ++ [(c, error)]) w))
  end.

(** [grpc_core::ExecCtx::Get()->flags()]. *)
Definition ExecCtx_flags : M Z := fun w => Done (exec_ctx_flags w) w.

(** Modelled from the spec: [EventEngine::Run] of the default event engine
    (event_engine sources are not here) is the "independent executor": the
    task is queued for one of the engine's own threads, nothing runs on the
    calling thread. *)
Definition EventEngine_Run (t : engine_task) : M unit :=
  fun w =>
    Done tt (set_trace (trace w ++ [EvEngineRun t])
               (set_event_engine_tasks (event_engine_tasks w ++ [t]) w)).

(** Modelled from the spec: [CallCombinerClosureList::Add] (call_combiner.h
    is not among the sources) "appends an entry; does not run anything". *)
Definition CallCombinerClosureList_Add (closure : option grpc_closure)
    (error : grpc_error_handle) (reason : string)
    (closures : CallCombinerClosureList) : M CallCombinerClosureList :=
  ret (closures ++ [mkEntry closure error reason]).

(** Modelled from the spec: [CallCombinerClosureList::RunClosures]
    (call_combiner.h is not among the sources): "for each entry in insertion
    order, schedules it to run serialized through the given call combiner";
    afterwards the list is consumed.  Running the scheduled work is the
    combiner's business. *)
Definition CallCombiner_Start (call_combiner : addr)
    (entry : CallCombinerClosure) : M unit :=
  fun w =>
    Done tt (set_trace (trace w ++ [EvCombinerStart call_combiner entry])
               (set_call_combiner_work
                  (call_combiner_work w ++ [(call_combiner, entry)]) w)).

Fixpoint CallCombinerClosureList_RunClosures (call_combiner : addr)
    (closures : CallCombinerClosureList) : M unit :=
  match closures with
  | [] => ret tt
  | entry :: rest =>
      CallCombiner_Start call_combiner entry ;;
      CallCombinerClosureList_RunClosures call_combiner rest
  end.

(** ** Failure propagation for stream operation batches *)

Definition grpc_transport_stream_op_batch_queue_finish_with_failure
    (batch : grpc_transport_stream_op_batch) (error : grpc_error_handle)
    (closures : CallCombinerClosureList) : M CallCombinerClosureList :=
  closures <-
    (if recv_initial_metadata batch
     then CallCombinerClosureList_Add
            (recv_initial_metadata_ready (payload batch)) error
            "failing recv_initial_metadata_ready" closures
     else ret closures) ;;
  closures <-
    (if recv_message batch
     then CallCombinerClosureList_Add
            (recv_message_ready (payload batch)) error
            "failing recv_message_ready" closures
     else ret closures) ;;
  closures <-
    (if recv_trailing_metadata batch
     then CallCombinerClosureList_Add
            (recv_trailing_metadata_ready (payload batch)) error
            "failing recv_trailing_metadata_ready" closures
     else ret closures) ;;
  match on_complete batch with
  | Some _ =>
      CallCombinerClosureList_Add (on_complete batch) error
        "failing on_complete" closures
  | None => ret closures
  end.

Definition grpc_transport_stream_op_batch_finish_with_failure
    (batch : grpc_transport_stream_op_batch) (error : grpc_error_handle)
    (call_combiner : addr) : M unit :=
  let closures : CallCombinerClosureList := [] in
  closures <-
    grpc_transport_stream_op_batch_queue_finish_with_failure
      batch error closures ;;
  CallCombinerClosureList_RunClosures call_combiner closures.

Definition grpc_transport_stream_op_batch_finish_with_failure_from_transport
    (batch : grpc_transport_stream_op_batch) (error : grpc_error_handle)
  : M unit :=
  (if recv_initial_metadata batch
   then ExecCtx_Run (recv_initial_metadata_ready (payload batch)) error
   else ret tt) ;;
  (if recv_message batch
   then ExecCtx_Run (recv_message_ready (payload batch)) error
   else ret tt) ;;
  (if recv_trailing_metadata batch
   then ExecCtx_Run (recv_trailing_metadata_ready (payload batch)) error
   else ret tt) ;;
  match on_complete batch with
  | Some _ => ExecCtx_Run (on_complete batch) error
  | None => ret tt
  end.

(** ** Synthetic-op factories *)

Definition destroy_made_transport_op (arg : option addr)
    (error : grpc_error_handle) : M unit :=
  op <- load_made_transport_op arg ;;
  ExecCtx_Run (mto_inner_on_complete op) error ;;
  heap_delete arg.

Definition grpc_make_transport_op (on_complete : option grpc_closure) : M addr :=
  op <- new_made_transport_op ;;
  update_made_transport_op op (fun o =>
    mkMadeTransportOp
      (GRPC_CLOSURE_INIT (Some cb_destroy_made_transport_op) (Some op))
      (mto_inner_on_complete o) (mto_op o)) ;;
  update_made_transport_op op (fun o =>
    mkMadeTransportOp (mto_outer_on_complete o) on_complete (mto_op o)) ;;
  update_made_transport_op op (fun o =>
    mkMadeTransportOp (mto_outer_on_complete o) (mto_inner_on_complete o)
      (mkTransportOp (Some (mto_outer_on_complete o)))) ;;
  ret op.

Section InlineCalls.

(** The indirect call [closure->cb(closure->cb_arg, error)]. *)
Variable invoke_cb : grpc_closure -> grpc_error_handle -> M unit.

(** Modelled from the spec: [grpc_core::Closure::Run] (closure.h is not
    among the sources) runs the closure at once, on the calling thread.
    Its only caller here has checked the pointer. *)
Definition Closure_Run (closure : grpc_closure) (error : grpc_error_handle)
  : M unit :=
  invoke_cb closure error.

Definition destroy_made_transport_stream_op (arg : option addr)
    (error : grpc_error_handle) : M unit :=
  op <- load_made_transport_stream_op arg ;;
  let c := mtso_inner_on_complete op in
  heap_delete arg ;;
  match c with
  | Some c => Closure_Run c error
  | None => ret tt
  end.

End InlineCalls.

Definition set_batch_on_complete (c : option grpc_closure)
    (b : grpc_transport_stream_op_batch) : grpc_transport_stream_op_batch :=
  mkBatch c (payload b) (send_initial_metadata b) (send_trailing_metadata b)
    (send_message b) (recv_initial_metadata b) (recv_message b)
    (recv_trailing_metadata b) (cancel_stream b).

Definition set_batch_payload (p : grpc_transport_stream_op_batch_payload)
    (b : grpc_transport_stream_op_batch) : grpc_transport_stream_op_batch :=
  mkBatch (on_complete b) p (send_initial_metadata b) (send_trailing_metadata b)
    (send_message b) (recv_initial_metadata b) (recv_message b)
    (recv_trailing_metadata b) (cancel_stream b).

Definition grpc_make_transport_stream_op (on_complete : option grpc_closure)
  : M addr :=
  op <- new_made_transport_stream_op ;;
  update_made_transport_stream_op op (fun o =>
    mkMadeTransportStreamOp (mtso_outer_on_complete o)
      (mtso_inner_on_complete o) (set_batch_payload empty_payload (mtso_op o))) ;;
  update_made_transport_stream_op op (fun o =>
    mkMadeTransportStreamOp
      (GRPC_CLOSURE_INIT (Some cb_destroy_made_transport_stream_op) (Some op))
      (mtso_inner_on_complete o) (mtso_op o)) ;;
  update_made_transport_stream_op op (fun o =>
    mkMadeTransportStreamOp (mtso_outer_on_complete o) on_complete (mtso_op o)) ;;
  update_made_transport_stream_op op (fun o =>
    mkMadeTransportStreamOp (mtso_outer_on_complete o)
      (mtso_inner_on_complete o)
      (set_batch_on_complete (Some (mtso_outer_on_complete o)) (mtso_op o))) ;;
  ret op.

(** ** Running closures *)

(** [closure->cb(closure->cb_arg, error)]: a callback of the caller is
    recorded in the trace and returns; the two callbacks defined in this file
    run their body.  [fuel] bounds the nesting of inline calls. *)
Fixpoint grpc_closure_invoke (fuel : nat) (c : grpc_closure)
    (error : grpc_error_handle) : M unit :=
  match fuel with
  | O => out_of_fuel
  | S fuel' =>
      emit (EvInvoke c error) ;;
      match cb c with
      | None => fault
      | Some (cb_external _) => ret tt
      | Some cb_destroy_made_transport_op =>
          destroy_made_transport_op (cb_arg c) error
      | Some cb_destroy_made_transport_stream_op =>
          destroy_made_transport_stream_op (grpc_closure_invoke fuel')
            (cb_arg c) error
      end
  end.

(** Modelled from the spec: the execution context is a "FIFO-ish task
    runner"; flushing it (exec_ctx.cc is not among the sources) runs the
    pending closures first in, first out, those scheduled meanwhile
    included, until none is left. *)
Fixpoint ExecCtx_Flush (fuel : nat) : M unit :=
  fun w =>
    match exec_ctx_closures w with
    | [] => Done tt w
    | (c, error) :: rest =>
        match fuel with
        | O => OutOfFuel
        | S fuel' =>
            (grpc_closure_invoke fuel' c error ;; ExecCtx_Flush fuel')
              (set_exec_ctx (exec_ctx_flags w) rest w)
        end
    end.

(** ** Stream reference count *)

Definition set_refs (r : RefCount) (refcount : grpc_stream_refcount)
  : grpc_stream_refcount :=
  mkStreamRefcount r (destroy refcount) (object_type refcount).

Definition set_destroy (c : grpc_closure) (refcount : grpc_stream_refcount)
  : grpc_stream_refcount :=
  mkStreamRefcount (refs refcount) c (object_type refcount).

Definition set_object_type (s : option string) (refcount : grpc_stream_refcount)
  : grpc_stream_refcount :=
  mkStreamRefcount (refs refcount) (destroy refcount) s.

(** [grpc_stream_ref_init], build without [NDEBUG].  The object behind
    [refcount] is passed in and the initialised object returned;
    [stream_refcount_traced] is [GRPC_TRACE_FLAG_ENABLED(stream_refcount)]. *)
Definition grpc_stream_ref_init (refcount : grpc_stream_refcount)
    (initial_refs : Z) (cb : option grpc_iomgr_cb_func) (cb_arg : option addr)
    (object_type : option string) (stream_refcount_traced : bool)
  : grpc_stream_refcount :=
  let refcount := set_object_type object_type refcount in
  let refcount := set_destroy (GRPC_CLOSURE_INIT cb cb_arg) refcount in
  set_refs (mkRefCount 1 (if stream_refcount_traced
                          then Some "stream_refcount" else None))
           refcount.

Section ExecCtxConstants.

(** exec_ctx.h is not among the sources.  The bit of the flags that marks a
    thread inside a resource loop, and the flags a newly constructed
    [ExecCtx] starts with, are parameters. *)
Variable GRPC_EXEC_CTX_FLAG_THREAD_RESOURCE_LOOP : Z.
Variable fresh_exec_ctx_flags : Z.

Definition grpc_stream_destroy (refcount : grpc_stream_refcount) : M unit :=
  flags <- ExecCtx_flags ;;
  if negb (Z.land flags GRPC_EXEC_CTX_FLAG_THREAD_RESOURCE_LOOP =? 0)
  then EventEngine_Run (StreamDestroyTask refcount)
  else ExecCtx_Run (Some (destroy refcount)) OkStatus.

Definition slice_stream_destroy (arg : grpc_stream_refcount) : M unit :=
  grpc_stream_destroy arg.

(** A scope that declares [grpc_core::ExecCtx exec_ctx;]: the new context
    is current inside, it is flushed when the scope ends and the previous
    one is current again. *)
Definition with_fresh_ExecCtx (fuel : nat) (body : M unit) : M unit :=
  fun w =>
    match (body ;; ExecCtx_Flush fuel)
            (set_exec_ctx fresh_exec_ctx_flags [] w) with
    | Done _ w' =>
        Done tt (set_exec_ctx (exec_ctx_flags w) (exec_ctx_closures w) w')
    | Fault => Fault
    | OutOfFuel => OutOfFuel
    end.

(** The body of the lambda given to the event engine.  The
    [ApplicationCallbackExecCtx] it also declares holds no work here. *)
Definition run_engine_task (fuel : nat) (t : engine_task) : M unit :=
  match t with
  | StreamDestroyTask refcount =>
      with_fresh_ExecCtx fuel
        (ExecCtx_Run (Some (destroy refcount)) OkStatus)
  end.

(** Modelled from the spec: [grpc_stream_ref] and [grpc_stream_unref] are
    inline functions of transport.h, which is not among the sources.
    "ref(): atomically increments count.  Must not be called after count has
    reached 0."  "unref(): atomically decrements count; if the result is 0,
    invokes the destroy protocol.  Calling unref more times than outstanding
    refs is a fatal invariant violation (undefined in the abstract model)".
    A call on a count that is not positive breaks that contract and is
    undefined behaviour. *)
Definition grpc_stream_ref (refcount : grpc_stream_refcount)
  : M grpc_stream_refcount :=
  if 0 <? value (refs refcount)
  then ret (set_refs (mkRefCount (value (refs refcount) + 1)
                                 (trace_tag (refs refcount))) refcount)
  else fault.

Definition grpc_stream_unref (refcount : grpc_stream_refcount)
  : M grpc_stream_refcount :=
  if 0 <? value (refs refcount)
  then
    let refcount :=
      set_refs (mkRefCount (value (refs refcount) - 1)
                           (trace_tag (refs refcount))) refcount in
    if value (refs refcount) =? 0
    then grpc_stream_destroy refcount ;; ret refcount
    else ret refcount
  else fault.

Inductive refcount_call : Type := call_ref | call_unref.

Definition apply_call (c : refcount_call) (refcount : grpc_stream_refcount)
  : M grpc_stream_refcount :=
  match c with
  | call_ref => grpc_stream_ref refcount
  | call_unref => grpc_stream_unref refcount
  end.


End ExecCtxConstants.

(** ** Polling-entity binding *)

(** Modelled from the spec: polling_entity.h is not among the sources.  The
    entity "is one of three mutually exclusive variants": a pollset, a
    pollset set, or empty; each accessor returns the handle of its own
    variant and null for the other two. *)
Inductive grpc_polling_entity : Type :=
| polling_entity_pollset (pollset : addr)
| polling_entity_pollset_set (pollset_set : addr)
| polling_entity_none.

Definition grpc_polling_entity_pollset (pollent : grpc_polling_entity)
  : option addr :=
  match pollent with
  | polling_entity_pollset pollset => Some pollset
  | _ => None
  end.

Definition grpc_polling_entity_pollset_set (pollent : grpc_polling_entity)
  : option addr :=
  match pollent with
  | polling_entity_pollset_set pollset_set => Some pollset_set
  | _ => None
  end.

(** The virtual methods of [grpc_core::Transport] that the binding uses; a
    concrete transport changes its own state [T]. *)
Class Transport (T : Type) : Type := {
  SetPollset : addr -> addr -> T -> T;
  SetPollsetSet : addr -> addr -> T -> T
}.

Definition SetPollingEntity {T : Type} `{Transport T} (stream : addr)
    (pollset_or_pollset_set : grpc_polling_entity) (t : T) : T :=
  match grpc_polling_entity_pollset pollset_or_pollset_set with
  | Some pollset => SetPollset stream pollset t
  | None =>
      match grpc_polling_entity_pollset_set pollset_or_pollset_set with
      | Some pollset_set => SetPollsetSet stream pollset_set t
      | None => t
      end
  end.

(** A transport that only records the calls it receives. *)
Inductive transport_call : Type :=
| CallSetPollset (stream pollset : addr)
| CallSetPollsetSet (stream pollset_set : addr).

#[global] Instance recording_transport : Transport (list transport_call) := {
  SetPollset stream pollset calls := calls ++ [CallSetPollset stream pollset];
  SetPollsetSet stream pollset_set calls :=
    calls ++ [CallSetPollsetSet stream pollset_set]
}.

(** The calls of a log, made in order on any transport. *)
Definition make_call {T : Type} `{Transport T} (c : transport_call) (t : T) : T :=
  match c with
  | CallSetPollset stream pollset => SetPollset stream pollset t
  | CallSetPollsetSet stream pollset_set => SetPollsetSet stream pollset_set t
  end.

Definition replay {T : Type} `{Transport T} (calls : list transport_call)
    (t : T) : T :=
  fold_left (fun t c => make_call c t) calls t.

(** ** Vocabulary of the properties *)

(** The events a computation added to the trace. *)
Definition events_since (w w' : World) : list event :=
  drop (length (trace w)) (trace w').

(** The four completion slots of a batch, in propagation order. *)
Inductive slot : Type :=
| slot_recv_initial_metadata
| slot_recv_message
| slot_recv_trailing_metadata
| slot_on_complete.

Definition all_slots : list slot :=
  [slot_recv_initial_metadata; slot_recv_message;
   slot_recv_trailing_metadata; slot_on_complete].

(** The closure pointer of a slot. *)
Definition slot_closure (batch : grpc_transport_stream_op_batch) (s : slot)
  : option grpc_closure :=
  match s with
  | slot_recv_initial_metadata => recv_initial_metadata_ready (payload batch)
  | slot_recv_message => recv_message_ready (payload batch)
  | slot_recv_trailing_metadata => recv_trailing_metadata_ready (payload batch)
  | slot_on_complete => on_complete batch
  end.

(** Whether the batch asks for the slot: the flag of a receive operation,
    a non-null pointer for [on_complete]. *)
Definition slot_requested (batch : grpc_transport_stream_op_batch) (s : slot)
  : bool :=
  match s with
  | slot_recv_initial_metadata => recv_initial_metadata batch
  | slot_recv_message => recv_message batch
  | slot_recv_trailing_metadata => recv_trailing_metadata batch
  | slot_on_complete =>
      match on_complete batch with Some _ => true | None => false end
  end.

Definition slot_reason (s : slot) : string :=
  match s with
  | slot_recv_initial_metadata => "failing recv_initial_metadata_ready"
  | slot_recv_message => "failing recv_message_ready"
  | slot_recv_trailing_metadata => "failing recv_trailing_metadata_ready"
  | slot_on_complete => "failing on_complete"
  end.

(** What the specification expects in the closure list for one slot, and
    for the whole batch. *)
Definition slot_entries (batch : grpc_transport_stream_op_batch)
    (error : grpc_error_handle) (s : slot) : CallCombinerClosureList :=
  if slot_requested batch s
  then [mkEntry (slot_closure batch s) error (slot_reason s)]
  else [].

Definition failure_entries (batch : grpc_transport_stream_op_batch)
    (error : grpc_error_handle) : CallCombinerClosureList :=
  concat (map (slot_entries batch error) all_slots).

(** The number of slots the batch asks for. *)
Definition requested_count (batch : grpc_transport_stream_op_batch) : nat :=
  length (List.filter (slot_requested batch) all_slots).

(** The closure an entry makes runnable, if it holds one. *)
Definition entry_runnable (entry : CallCombinerClosure)
  : option (grpc_closure * grpc_error_handle) :=
  match entry_closure entry with
  | Some c => Some (c, entry_error entry)
  | None => None
  end.

Definition schedule_event (ce : grpc_closure * grpc_error_handle) : event :=
  EvSchedule (fst ce) (snd ce).

(** The specification's reading of [finish_with_failure]: build the list
    with the queueing function, then drain it through the combiner. *)
Definition build_then_drain (batch : grpc_transport_stream_op_batch)
    (error : grpc_error_handle) (call_combiner : addr) : M unit :=
  bind (grpc_transport_stream_op_batch_queue_finish_with_failure batch error [])
       (CallCombinerClosureList_RunClosures call_combiner).

(** The errors with which closure [c] was called, in order. *)
Definition invocations_of (c : grpc_closure) (t : list event)
  : list grpc_error_handle :=
  omap (fun ev =>
          match ev with
          | EvInvoke c' e => if decide (c' = c) then Some e else None
          | _ => None
          end) t.

(** The closures handed on (scheduled or called) other than [wrapper]. *)
Definition forwardings (wrapper : grpc_closure) (t : list event)
  : list (grpc_closure * grpc_error_handle) :=
  omap (fun ev =>
          match ev with
          | EvSchedule c e => Some (c, e)
          | EvInvoke c e => if decide (c = wrapper) then None else Some (c, e)
          | _ => None
          end) t.

(** How many times allocation [a] was freed. *)
Definition deletions_of (a : addr) (t : list event) : nat :=
  length (List.filter (fun ev => bool_decide (ev = EvDelete a)) t).

(** [x] occurs in the trace, and [y] occurs later. *)
Fixpoint occurs_before (x y : event) (t : list event) : bool :=
  match t with
  | [] => false
  | ev :: rest =>
      (bool_decide (ev = x) && bool_decide (y ∈ rest)) || occurs_before x y rest
  end.

(** The wrapper hands [c] on with [error], by scheduling it or by calling
    it, before it frees [a]. *)
Definition forwards_then_frees (c : grpc_closure) (error : grpc_error_handle)
    (a : addr) (t : list event) : bool :=
  occurs_before (EvSchedule c error) (EvDelete a) t ||
  occurs_before (EvInvoke c error) (EvDelete a) t.

(** The op behind the pointer a factory returns, [&op->op]. *)
Definition made_transport_op_at (w : World) (op : addr)
  : option grpc_transport_op :=
  match heap w !! op with
  | Some (AllocTransportOp o) => Some (mto_op o)
  | _ => None
  end.

Definition made_transport_stream_op_at (w : World) (op : addr)
  : option grpc_transport_stream_op_batch :=
  match heap w !! op with
  | Some (AllocTransportStreamOp o) => Some (mtso_op o)
  | _ => None
  end.

(** The transport signals that the op is consumed: it calls the wrapper
    closure, and the execution context is flushed when the call returns. *)
Definition transport_fires (fuel : nat) (wrapper : grpc_closure)
    (error : grpc_error_handle) : M unit :=
  grpc_closure_invoke fuel wrapper error ;; ExecCtx_Flush fuel.

(** A closure whose callback is code of the caller. *)
Definition external_closure (f : positive) (arg : option addr) : grpc_closure :=
  Closure (Some (cb_external f)) arg.

Definition is_external (c : grpc_closure) : Prop :=
  exists f, cb c = Some (cb_external f).




#[global] Instance slot_eq_dec : EqDecision slot.
Proof. solve_decision. Defined.

(** What one slot gives an executor to run: its closure with the error, when
    the slot is requested and its pointer is not null. *)
Definition slot_runs (batch : grpc_transport_stream_op_batch)
    (error : grpc_error_handle) (s : slot)
  : list (grpc_closure * grpc_error_handle) :=
  if slot_requested batch s
  then match slot_closure batch s with
       | Some c => [(c, error)]
       | None => []
       end
  else [].

(** A slot holds a closure to fail when it is requested and its pointer is
    not null; otherwise the closure is absent from the batch. *)
Definition slot_present (batch : grpc_transport_stream_op_batch) (s : slot)
  : bool :=
  slot_requested batch s &&
  match slot_closure batch s with Some _ => true | None => false end.

(** The entry was appended for slot [s]: entries are told apart by their
    reason. *)
Definition entry_of_slot (s : slot) (entry : CallCombinerClosure) : bool :=
  String.eqb (entry_reason entry) (slot_reason s).

(** The slots other than [s], in propagation order. *)
Definition other_slots (s : slot) : list slot :=
  List.filter (fun s' => negb (bool_decide (s' = s))) all_slots.


(** A stream refcount as [grpc_stream_ref_init] leaves it, for a callback of
    the caller. *)
Definition fresh_stream_refcount (f : positive) (cb_arg : option addr)
  : grpc_stream_refcount :=
  grpc_stream_ref_init (mkStreamRefcount (mkRefCount 0 None) zeroed_closure None)
    1 (Some (cb_external f)) cb_arg None false.

(** ** Vocabulary of the further properties *)

(** The wrapper closures that the factories set up for the allocation at
    [op]. *)
Definition transport_op_wrapper (op : addr) : grpc_closure :=
  GRPC_CLOSURE_INIT (Some cb_destroy_made_transport_op) (Some op).

Definition transport_stream_op_wrapper (op : addr) : grpc_closure :=
  GRPC_CLOSURE_INIT (Some cb_destroy_made_transport_stream_op) (Some op).

Definition invoke_event (ce : grpc_closure * grpc_error_handle) : event :=
  EvInvoke (fst ce) (snd ce).

(** The batch with other send-side and cancel flags. *)
Definition set_send_flags (send_initial send_trailing send_msg cancel : bool)
    (b : grpc_transport_stream_op_batch) : grpc_transport_stream_op_batch :=
  mkBatch (on_complete b) (payload b) send_initial send_trailing send_msg
    (recv_initial_metadata b) (recv_message b) (recv_trailing_metadata b)
    cancel.

(** Modelled from the spec: the event engine is the "independent executor";
    here it runs the tasks it holds, oldest first, each to its end. *)
Fixpoint EventEngine_drain (fresh_exec_ctx_flags : Z) (fuel : nat) : M unit :=
  fun w =>
    match event_engine_tasks w with
    | [] => Done tt w
    | t :: rest =>
        match fuel with
        | O => OutOfFuel
        | S fuel' =>
            (run_engine_task fresh_exec_ctx_flags fuel' t ;;
             EventEngine_drain fresh_exec_ctx_flags fuel')
              (set_event_engine_tasks rest w)
        end
    end.

(** The allocations at [ops] are live stream-op wrappers chained through
    their inner closures: each one's [inner_on_complete] is the wrapper of
    the next, and the one of the last is [last]. *)
Fixpoint stream_op_chain (h : gmap addr made_alloc) (ops : list addr)
    (last : option grpc_closure) : bool :=
  match ops with
  | [] => true
  | op :: rest =>
      match h !! op with
      | Some (AllocTransportStreamOp o) =>
          bool_decide
            (mtso_inner_on_complete o =
             match rest with
             | [] => last
             | next :: _ => Some (transport_stream_op_wrapper next)
             end) &&
          stream_op_chain h rest last
      | _ => false
      end
  end.

(** What a chain of wrappers leaves in the trace when its first wrapper is
    called with [error]. *)
Definition chain_events (ops : list addr) (last : option grpc_closure)
    (error : grpc_error_handle) : list event :=
  concat (map (fun op => [EvInvoke (transport_stream_op_wrapper op) error;
                          EvDelete op]) ops) ++
  match last with
  | Some c => [EvInvoke c error]
  | None => []
  end.

(** The same for the wrappers of transport ops, which hand their inner
    closure to the execution context. *)
Fixpoint transport_op_chain (h : gmap addr made_alloc) (ops : list addr)
    (last : option grpc_closure) : bool :=
  match ops with
  | [] => true
  | op :: rest =>
      match h !! op with
      | Some (AllocTransportOp o) =>
          bool_decide
            (mto_inner_on_complete o =
             match rest with
             | [] => last
             | next :: _ => Some (transport_op_wrapper next)
             end) &&
          transport_op_chain h rest last
      | _ => false
      end
  end.

Fixpoint op_chain_events (ops : list addr) (last : option grpc_closure)
    (error : grpc_error_handle) : list event :=
  match ops with
  | [] =>
      match last with
      | Some c => [EvInvoke c error]
      | None => []
      end
  | op :: rest =>
      EvInvoke (transport_op_wrapper op) error ::
      match rest, last with
      | next :: _, _ => [EvSchedule (transport_op_wrapper next) error]
      | [], Some c => [EvSchedule c error]
      | [], None => []
      end ++
      EvDelete op :: op_chain_events rest last error
  end.

(** Unfolds the monad and the one-step collaborators. *)
Ltac run_monad :=
  unfold bind, ret, fault, out_of_fuel, emit, ExecCtx_flags,
    CallCombinerClosureList_Add, CallCombiner_Start; simpl.

(** * Properties *)

(** ** Bookkeeping *)

Lemma events_since_app (w w' : World) (evs : list event) :
  trace w' = trace w ++ evs -> events_since w w' = evs.
Proof.
  intros H. unfold events_since. rewrite H. apply drop_app_length.
Qed.

(** ** Closure lists *)

Lemma RunClosures_run (call_combiner : addr) (closures : CallCombinerClosureList)
    (w : World) :
  CallCombinerClosureList_RunClosures call_combiner closures w =
  Done tt (set_trace (trace w ++ map (EvCombinerStart call_combiner) closures)
             (set_call_combiner_work
                (call_combiner_work w ++ map (pair call_combiner) closures) w)).
Proof.
  revert w. induction closures as [|entry rest IH]; intros w.
  - destruct w. unfold set_trace, set_call_combiner_work. simpl.
    by rewrite !app_nil_r.
  - simpl. run_monad. rewrite IH.
    unfold set_trace, set_call_combiner_work. simpl.
    by rewrite <- !app_assoc.
Qed.

Lemma queue_finish_with_failure_run (batch : grpc_transport_stream_op_batch)
    (error : grpc_error_handle) (closures : CallCombinerClosureList) (w : World) :
  grpc_transport_stream_op_batch_queue_finish_with_failure
    batch error closures w =
  Done (closures ++ failure_entries batch error) w.
Proof.
  unfold grpc_transport_stream_op_batch_queue_finish_with_failure,
    failure_entries, slot_entries.
  destruct batch as [oc p si st sm ri rm rt cs]. simpl.
  destruct ri, rm, rt, oc; run_monad;
    rewrite ?app_nil_r, <- ?app_assoc; reflexivity.
Qed.

Lemma failure_entries_length (batch : grpc_transport_stream_op_batch)
    (error : grpc_error_handle) :
  length (failure_entries batch error) = requested_count batch.
Proof.
  unfold failure_entries, requested_count, slot_entries. simpl.
  destruct (recv_initial_metadata batch), (recv_message batch),
    (recv_trailing_metadata batch), (on_complete batch); reflexivity.
Qed.

Lemma failure_entries_error (batch : grpc_transport_stream_op_batch)
    (error : grpc_error_handle) (entry : CallCombinerClosure) :
  entry ∈ failure_entries batch error -> entry_error entry = error.
Proof.
  unfold failure_entries, slot_entries. simpl.
  destruct (recv_initial_metadata batch), (recv_message batch),
    (recv_trailing_metadata batch), (on_complete batch); simpl;
    rewrite ?elem_of_cons, elem_of_nil; intros H;
    repeat destruct H as [H|H]; subst; try reflexivity; contradiction.
Qed.

Lemma from_transport_run (batch : grpc_transport_stream_op_batch)
    (error : grpc_error_handle) (w : World) :
  let runs := omap entry_runnable (failure_entries batch error) in
  grpc_transport_stream_op_batch_finish_with_failure_from_transport
    batch error w =
  Done tt (set_trace (trace w ++ map schedule_event runs)
             (set_exec_ctx (exec_ctx_flags w)
                           (exec_ctx_closures w ++ runs) w)).
Proof.
  unfold grpc_transport_stream_op_batch_finish_with_failure_from_transport,
    failure_entries, slot_entries, ExecCtx_Run.
  destruct batch as [oc [c1 c2 c3] si st sm ri rm rt cs]. destruct w. simpl.
  destruct ri, rm, rt, oc, c1, c2, c3; run_monad;
    unfold set_trace, set_exec_ctx; simpl;
    rewrite ?app_nil_r, <- ?app_assoc; reflexivity.
Qed.

(** ** Failure propagation *)

(** C1.  Queueing a batch for failure appends, after what the list already
    holds, one entry for each closure the batch asks for:
    [recv_initial_metadata_ready], [recv_message_ready] and
    [recv_trailing_metadata_ready] when their flag is set, [on_complete] when
    it is not null, in this order and none for the others; every entry
    carries the supplied error; the world is left as it was, so nothing has
    run. *)
Theorem queue_finish_with_failure_one_entry_per_closure
    (batch : grpc_transport_stream_op_batch) (error : grpc_error_handle)
    (closures : CallCombinerClosureList) (w : World) :
  grpc_transport_stream_op_batch_queue_finish_with_failure
    batch error closures w =
  Done (closures ++ failure_entries batch error) w /\
  failure_entries batch error =
    (if recv_initial_metadata batch
     then [mkEntry (recv_initial_metadata_ready (payload batch)) error
             "failing recv_initial_metadata_ready"]
     else []) ++
    (if recv_message batch
     then [mkEntry (recv_message_ready (payload batch)) error
             "failing recv_message_ready"]
     else []) ++
    (if recv_trailing_metadata batch
     then [mkEntry (recv_trailing_metadata_ready (payload batch)) error
             "failing recv_trailing_metadata_ready"]
     else []) ++
    (match on_complete batch with
     | Some c => [mkEntry (Some c) error "failing on_complete"]
     | None => []
     end) /\
  length (failure_entries batch error) = requested_count batch /\
  Forall (fun entry => entry_error entry = error)
         (failure_entries batch error).
Proof.
  split; [apply queue_finish_with_failure_run|].
  split; [|split; [apply failure_entries_length
                  |apply Forall_forall; intros entry;
                   apply failure_entries_error]].
  unfold failure_entries, slot_entries. simpl.
  destruct (on_complete batch); simpl; rewrite ?app_nil_r; reflexivity.
Qed.

(** C4.  [grpc_transport_stream_op_batch_finish_with_failure] is the
    composition the specification describes: the list built by the queueing
    function from an empty list, drained at once through the given call
    combiner.  Its whole effect is to start, on that combiner and in order,
    the entries the queueing function selects. *)
Theorem finish_with_failure_is_build_then_drain
    (batch : grpc_transport_stream_op_batch) (error : grpc_error_handle)
    (call_combiner : addr) (w : World) :
  grpc_transport_stream_op_batch_finish_with_failure
    batch error call_combiner w =
  build_then_drain batch error call_combiner w /\
  grpc_transport_stream_op_batch_finish_with_failure
    batch error call_combiner w =
  Done tt
    (set_trace
       (trace w ++
        map (EvCombinerStart call_combiner) (failure_entries batch error))
       (set_call_combiner_work
          (call_combiner_work w ++
           map (pair call_combiner) (failure_entries batch error)) w)).
Proof.
  split; [reflexivity|].
  unfold grpc_transport_stream_op_batch_finish_with_failure, bind.
  rewrite queue_finish_with_failure_run. simpl. apply RunClosures_run.
Qed.

(** C5.  Failing a batch from the transport schedules on the current
    execution context, and on no call combiner, exactly the closures that the
    queueing function selects for the same batch, each with the supplied
    error, in the order [recv_initial_metadata_ready], [recv_message_ready],
    [recv_trailing_metadata_ready], [on_complete]. *)
Theorem finish_with_failure_from_transport_runs_selected_closures
    (batch : grpc_transport_stream_op_batch) (error : grpc_error_handle)
    (w : World) :
  exists (queued : CallCombinerClosureList) (w' : World),
    grpc_transport_stream_op_batch_queue_finish_with_failure
      batch error [] w = Done queued w /\
    grpc_transport_stream_op_batch_finish_with_failure_from_transport
      batch error w = Done tt w' /\
    exec_ctx_closures w' =
      exec_ctx_closures w ++ omap entry_runnable queued /\
    events_since w w' = map schedule_event (omap entry_runnable queued) /\
    omap entry_runnable queued =
      slot_runs batch error slot_recv_initial_metadata ++
      slot_runs batch error slot_recv_message ++
      slot_runs batch error slot_recv_trailing_metadata ++
      slot_runs batch error slot_on_complete /\
    call_combiner_work w' = call_combiner_work w /\
    event_engine_tasks w' = event_engine_tasks w /\
    heap w' = heap w.
Proof.
  eexists _, _.
  split; [apply queue_finish_with_failure_run|].
  split; [apply from_transport_run|]. simpl.
  split; [reflexivity|].
  split; [by apply events_since_app|].
  split; [|done].
  unfold failure_entries, slot_entries, slot_runs. simpl.
  destruct (recv_initial_metadata batch), (recv_message batch),
    (recv_trailing_metadata batch), (on_complete batch),
    (recv_initial_metadata_ready (payload batch)),
    (recv_message_ready (payload batch)),
    (recv_trailing_metadata_ready (payload batch)); reflexivity.
Qed.

(** C6, as the code has it.  A slot whose closure is absent from the batch
    gives neither path a closure to fire: the runnable closures among the
    entries appended by the queueing path, and the closures scheduled by the
    transport path, are those of the other slots alone, and the transport
    path calls no closure itself.  A slot that is not requested (a clear
    receive flag, a null [on_complete]) gets no entry either.  A receive
    slot whose flag is set while its pointer is null still gets its entry
    from the queueing path, and the entry holds the null pointer. *)
Theorem absent_slot_yields_no_closure
    (batch : grpc_transport_stream_op_batch) (error : grpc_error_handle)
    (closures : CallCombinerClosureList) (w : World) (s : slot) :
  slot_present batch s = false ->
  exists (appended : CallCombinerClosureList) (w' : World),
    grpc_transport_stream_op_batch_queue_finish_with_failure
      batch error closures w = Done (closures ++ appended) w /\
    omap entry_runnable appended =
      concat (map (slot_runs batch error) (other_slots s)) /\
    List.filter (entry_of_slot s) appended =
      (if slot_requested batch s
       then [mkEntry None error (slot_reason s)]
       else []) /\
    grpc_transport_stream_op_batch_finish_with_failure_from_transport
      batch error w = Done tt w' /\
    exec_ctx_closures w' =
      exec_ctx_closures w ++
      concat (map (slot_runs batch error) (other_slots s)) /\
    events_since w w' =
      map schedule_event
        (concat (map (slot_runs batch error) (other_slots s))).
Proof.
  intros Habsent.
  assert (Hruns : omap entry_runnable (failure_entries batch error) =
                  concat (map (slot_runs batch error) (other_slots s))).
  { unfold failure_entries, slot_entries, slot_runs, other_slots.
    destruct batch as [oc [c1 c2 c3] si st sm ri rm rt cs].
    destruct ri, rm, rt, oc, c1, c2, c3, s; simpl in *;
      try discriminate; reflexivity. }
  eexists _, _.
  split; [apply queue_finish_with_failure_run|].
  split; [exact Hruns|].
  split.
  { unfold failure_entries, slot_entries.
    destruct batch as [oc [c1 c2 c3] si st sm ri rm rt cs].
    destruct ri, rm, rt, oc, c1, c2, c3, s; simpl in *;
      try discriminate; reflexivity. }
  split; [apply from_transport_run|]. simpl.
  rewrite Hruns.
  split; [reflexivity|]. by apply events_since_app.
Qed.

(** The theorem at a batch that sets [recv_message] and leaves every
    pointer null. *)
Lemma absent_slot_yields_no_closure_witness :
  let batch :=
    mkBatch None (mkPayload None None None)
            false false false false true false false in
  let error := ErrorStatus 14 "reset" in
  exists (appended : CallCombinerClosureList) (w' : World),
    grpc_transport_stream_op_batch_queue_finish_with_failure
      batch error [] empty_world = Done ([] ++ appended) empty_world /\
    omap entry_runnable appended = [] /\
    List.filter (entry_of_slot slot_recv_message) appended =
      [mkEntry None error "failing recv_message_ready"] /\
    grpc_transport_stream_op_batch_finish_with_failure_from_transport
      batch error empty_world = Done tt w' /\
    exec_ctx_closures w' = [].
Proof.
  intros batch error.
  destruct (absent_slot_yields_no_closure batch error []
              empty_world slot_recv_message eq_refl)
    as (appended & w' & Hq & Hruns & Hslot & Ht & Hctx & _).
  exists appended, w'. repeat split; assumption.
Defined.

(** C6, as stated, fails on the queueing path.  In a batch that sets the
    [recv_message] flag and leaves [recv_message_ready] null, the closure of
    that slot is absent, yet an entry is appended for the slot. *)
Lemma null_receive_closure_gets_an_entry :
  let batch :=
    mkBatch None (mkPayload None None None)
            false false false false true false false in
  let error := ErrorStatus 14 "reset" in
  slot_present batch slot_recv_message = false /\
  exists appended,
    grpc_transport_stream_op_batch_queue_finish_with_failure
      batch error [] empty_world = Done appended empty_world /\
    appended = [mkEntry None error "failing recv_message_ready"] /\
    List.filter (entry_of_slot slot_recv_message) appended <> [].
Proof.
  intros batch error. split; [reflexivity|].
  eexists. split; [reflexivity|]. split; [reflexivity|]. discriminate.
Qed.

(** ** Polling entity and refcount initialisation *)

(** C9.  Binding a polling entity is a pure dispatch in which exactly one
    branch runs.  On any transport, a pollset entity makes the call
    [SetPollset] and no other, a pollset-set entity the call [SetPollsetSet]
    and no other, and an empty entity makes no call and leaves the transport
    as it was; the calls made on any transport are those the recording
    transport logs, at most one.  The function is total: no outcome is an
    error. *)
Theorem SetPollingEntity_dispatch (T : Type) (transport : Transport T)
    (stream : addr) (t : T) (calls : list transport_call) :
  (forall pollset,
      SetPollingEntity stream (polling_entity_pollset pollset) t =
      SetPollset stream pollset t /\
      SetPollingEntity stream (polling_entity_pollset pollset) calls =
      calls ++ [CallSetPollset stream pollset]) /\
  (forall pollset_set,
      SetPollingEntity stream (polling_entity_pollset_set pollset_set) t =
      SetPollsetSet stream pollset_set t /\
      SetPollingEntity stream (polling_entity_pollset_set pollset_set) calls =
      calls ++ [CallSetPollsetSet stream pollset_set]) /\
  SetPollingEntity stream polling_entity_none t = t /\
  SetPollingEntity stream polling_entity_none calls = calls /\
  (forall pollent,
      SetPollingEntity stream pollent t =
      replay (SetPollingEntity stream pollent []) t /\
      (length (SetPollingEntity stream pollent []) <= 1)%nat).
Proof.
  split; [intros pollset; split; reflexivity|].
  split; [intros pollset_set; split; reflexivity|].
  split; [reflexivity|]. split; [reflexivity|].
  intros pollent. destruct pollent; simpl; split; (reflexivity || lia).
Qed.

(** C10.  [grpc_stream_ref_init] sets the count to 1 whatever
    [initial_refs] is, and binds the destroy closure to the callback and the
    argument it is given. *)
Theorem grpc_stream_ref_init_count_is_one
    (refcount : grpc_stream_refcount) (initial_refs : Z)
    (cb : option grpc_iomgr_cb_func) (cb_arg : option addr)
    (object_type : option string) (traced : bool) :
  let initialised :=
    grpc_stream_ref_init refcount initial_refs cb cb_arg object_type traced in
  value (refs initialised) = 1 /\
  destroy initialised = Closure cb cb_arg /\
  (forall other_refs,
      grpc_stream_ref_init refcount other_refs cb cb_arg object_type traced =
      initialised).
Proof. repeat split. Qed.

(** ** Stream destruction *)

Lemma grpc_stream_destroy_run (resource_loop_flag : Z)
    (refcount : grpc_stream_refcount) (w : World) :
  grpc_stream_destroy resource_loop_flag refcount w =
  if negb (Z.land (exec_ctx_flags w) resource_loop_flag =? 0)
  then Done tt
         (set_trace (trace w ++ [EvEngineRun (StreamDestroyTask refcount)])
            (set_event_engine_tasks
               (event_engine_tasks w ++ [StreamDestroyTask refcount]) w))
  else Done tt
         (set_trace (trace w ++ [EvSchedule (destroy refcount) OkStatus])
            (set_exec_ctx (exec_ctx_flags w)
               (exec_ctx_closures w ++ [(destroy refcount, OkStatus)]) w)).
Proof.
  unfold grpc_stream_destroy. run_monad.
  destruct (Z.land (exec_ctx_flags w) resource_loop_flag =? 0); reflexivity.
Qed.

Lemma grpc_closure_invoke_external (fuel : nat) (c : grpc_closure)
    (error : grpc_error_handle) (w : World) :
  is_external c ->
  grpc_closure_invoke (S fuel) c error w =
  Done tt (set_trace (trace w ++ [EvInvoke c error]) w).
Proof.
  intros [f Hf]. simpl. run_monad. by rewrite Hf.
Qed.

Lemma run_engine_task_external (fresh_flags : Z) (fuel : nat)
    (refcount : grpc_stream_refcount) (w : World) :
  is_external (destroy refcount) ->
  run_engine_task fresh_flags (S (S fuel)) (StreamDestroyTask refcount) w =
  Done tt
    (set_trace
       (trace w ++ [EvSchedule (destroy refcount) OkStatus;
                    EvInvoke (destroy refcount) OkStatus]) w).
Proof.
  intros Hext.
  unfold run_engine_task, with_fresh_ExecCtx, bind, ExecCtx_Run.
  cbn [ExecCtx_Flush exec_ctx_closures set_trace set_exec_ctx app].
  unfold bind.
  rewrite grpc_closure_invoke_external by exact Hext.
  destruct w. unfold set_trace, set_exec_ctx. simpl.
  by rewrite <- app_assoc.
Qed.

(** C2.  When the resource-loop bit of the execution context's flags is
    set, [grpc_stream_destroy] calls nothing and schedules nothing on the
    calling thread's context: it hands the event engine one task for the
    refcount, and that task, run by the engine, schedules the destroy closure
    with a success status on a new execution context and has it called
    there, the context of the thread it runs on being as before.  When the
    bit is clear, the destroy closure is scheduled with a success status on
    the current execution context. *)
Theorem grpc_stream_destroy_defers_in_resource_loop
    (resource_loop_flag fresh_flags : Z) (refcount : grpc_stream_refcount)
    (w : World) :
  (Z.land (exec_ctx_flags w) resource_loop_flag <> 0 ->
   grpc_stream_destroy resource_loop_flag refcount w =
   Done tt
     (set_trace (trace w ++ [EvEngineRun (StreamDestroyTask refcount)])
        (set_event_engine_tasks
           (event_engine_tasks w ++ [StreamDestroyTask refcount]) w)) /\
   (forall (fuel : nat) (w1 : World),
       is_external (destroy refcount) ->
       run_engine_task fresh_flags (S (S fuel)) (StreamDestroyTask refcount) w1 =
       Done tt
         (set_trace
            (trace w1 ++ [EvSchedule (destroy refcount) OkStatus;
                          EvInvoke (destroy refcount) OkStatus]) w1))) /\
  (Z.land (exec_ctx_flags w) resource_loop_flag = 0 ->
   grpc_stream_destroy resource_loop_flag refcount w =
   Done tt
     (set_trace (trace w ++ [EvSchedule (destroy refcount) OkStatus])
        (set_exec_ctx (exec_ctx_flags w)
           (exec_ctx_closures w ++ [(destroy refcount, OkStatus)]) w))).
Proof.
  split.
  - intros Hset. split.
    + rewrite grpc_stream_destroy_run.
      destruct (Z.eqb_spec (Z.land (exec_ctx_flags w) resource_loop_flag) 0);
        [contradiction|reflexivity].
    + intros fuel w1 Hext. by apply run_engine_task_external.
  - intros Hclear. rewrite grpc_stream_destroy_run, Hclear. reflexivity.
Qed.

(** The theorem with the resource-loop bit at 2, on a thread whose flags are
    3 and on one whose flags are 0. *)
Lemma grpc_stream_destroy_defers_in_resource_loop_witness :
  let refcount := fresh_stream_refcount 7 None in
  let in_loop := set_exec_ctx 3 [] empty_world in
  grpc_stream_destroy 2 refcount in_loop =
  Done tt
    (set_trace [EvEngineRun (StreamDestroyTask refcount)]
       (set_event_engine_tasks [StreamDestroyTask refcount] in_loop)) /\
  run_engine_task 1 2 (StreamDestroyTask refcount) empty_world =
  Done tt
    (set_trace [EvSchedule (destroy refcount) OkStatus;
                EvInvoke (destroy refcount) OkStatus] empty_world) /\
  grpc_stream_destroy 2 refcount empty_world =
  Done tt
    (set_trace [EvSchedule (destroy refcount) OkStatus]
       (set_exec_ctx 0 [(destroy refcount, OkStatus)] empty_world)).
Proof.
  intros refcount in_loop.
  pose proof (grpc_stream_destroy_defers_in_resource_loop
                2 1 refcount in_loop) as [Hloop _].
  pose proof (grpc_stream_destroy_defers_in_resource_loop
                2 1 refcount empty_world) as [_ Hclear].
  destruct Hloop as [Hhand Htask]; [vm_compute; discriminate|].
  split; [exact Hhand|].
  split; [apply (Htask 0%nat empty_world); exists 7%positive; reflexivity|].
  apply Hclear. reflexivity.
Defined.

(** ** Reference counting *)




(** A call on a count that is not positive is outside the contract of ref
    and unref: the outcome is undefined, not a second destroy. *)
Lemma refcount_call_at_zero_is_undefined (resource_loop_flag : Z)
    (c : refcount_call) (refcount : grpc_stream_refcount) (w : World) :
  value (refs refcount) <= 0 ->
  apply_call resource_loop_flag c refcount w = Fault.
Proof.
  intros Hzero. apply Z.ltb_ge in Hzero.
  destruct c; unfold apply_call, grpc_stream_ref, grpc_stream_unref;
    by rewrite Hzero.
Qed.





(** ** Synthetic operations *)

Lemma update_made_transport_op_run (op : addr)
    (f : made_transport_op -> made_transport_op) (o : made_transport_op)
    (w : World) :
  heap w !! op = Some (AllocTransportOp o) ->
  update_made_transport_op op f w =
  Done tt (set_heap (<[op := AllocTransportOp (f o)]> (heap w)) w).
Proof.
  intros Hop. unfold update_made_transport_op, bind, load_made_transport_op,
    heap_store. by rewrite Hop, Hop.
Qed.

Lemma update_made_transport_stream_op_run (op : addr)
    (f : made_transport_stream_op -> made_transport_stream_op)
    (o : made_transport_stream_op) (w : World) :
  heap w !! op = Some (AllocTransportStreamOp o) ->
  update_made_transport_stream_op op f w =
  Done tt (set_heap (<[op := AllocTransportStreamOp (f o)]> (heap w)) w).
Proof.
  intros Hop. unfold update_made_transport_stream_op, bind,
    load_made_transport_stream_op, heap_store. by rewrite Hop, Hop.
Qed.

Lemma grpc_make_transport_op_run (on_complete : option grpc_closure) (w : World) :
  let op := fresh (dom (heap w)) in
  let wrapper := Closure (Some cb_destroy_made_transport_op) (Some op) in
  grpc_make_transport_op on_complete w =
  Done op
    (set_trace (trace w ++ [EvNew op])
       (set_heap
          (<[op := AllocTransportOp
                     (mkMadeTransportOp wrapper on_complete
                        (mkTransportOp (Some wrapper)))]> (heap w)) w)).
Proof.
  intros op wrapper.
  unfold grpc_make_transport_op, new_made_transport_op, heap_new.
  unfold bind at 1. fold op.
  unfold bind at 1.
  erewrite update_made_transport_op_run by (simpl; apply lookup_insert_eq).
  unfold bind at 1.
  erewrite update_made_transport_op_run by (simpl; apply lookup_insert_eq).
  unfold bind at 1.
  erewrite update_made_transport_op_run by (simpl; apply lookup_insert_eq).
  unfold ret, set_trace, set_heap. simpl.
  by rewrite !insert_insert_eq.
Qed.

Lemma grpc_make_transport_stream_op_run (on_complete : option grpc_closure)
    (w : World) :
  let op := fresh (dom (heap w)) in
  let wrapper := Closure (Some cb_destroy_made_transport_stream_op) (Some op) in
  grpc_make_transport_stream_op on_complete w =
  Done op
    (set_trace (trace w ++ [EvNew op])
       (set_heap
          (<[op := AllocTransportStreamOp
                     (mkMadeTransportStreamOp wrapper on_complete
                        (set_batch_on_complete (Some wrapper) empty_batch))]>
             (heap w)) w)).
Proof.
  intros op wrapper.
  unfold grpc_make_transport_stream_op, new_made_transport_stream_op, heap_new.
  unfold bind at 1. fold op.
  do 4 (unfold bind at 1;
        erewrite update_made_transport_stream_op_run
          by (simpl; apply lookup_insert_eq)).
  unfold ret, set_trace, set_heap. simpl.
  by rewrite !insert_insert_eq.
Qed.

Lemma destroy_made_transport_op_run (op : addr) (o : made_transport_op)
    (error : grpc_error_handle) (w : World) :
  heap w !! op = Some (AllocTransportOp o) ->
  let runs := match mto_inner_on_complete o with
              | Some c => [(c, error)]
              | None => []
              end in
  destroy_made_transport_op (Some op) error w =
  Done tt
    (set_trace (trace w ++ map schedule_event runs ++ [EvDelete op])
       (set_heap (delete op (heap w))
          (set_exec_ctx (exec_ctx_flags w) (exec_ctx_closures w ++ runs) w))).
Proof.
  intros Hop runs. subst runs.
  unfold destroy_made_transport_op, bind, load_made_transport_op. rewrite Hop.
  destruct (mto_inner_on_complete o) as [c|]; simpl;
    unfold heap_delete; simpl; rewrite Hop; destruct w; simpl in *;
    unfold set_trace, set_heap, set_exec_ctx; simpl;
    rewrite ?app_nil_r, <- ?app_assoc; reflexivity.
Qed.

Lemma destroy_made_transport_stream_op_run
    (invoke : grpc_closure -> grpc_error_handle -> M unit)
    (op : addr) (o : made_transport_stream_op)
    (error : grpc_error_handle) (w : World) :
  heap w !! op = Some (AllocTransportStreamOp o) ->
  let freed := set_trace (trace w ++ [EvDelete op])
                 (set_heap (delete op (heap w)) w) in
  destroy_made_transport_stream_op invoke (Some op) error w =
  match mtso_inner_on_complete o with
  | Some c => invoke c error freed
  | None => Done tt freed
  end.
Proof.
  intros Hop freed. subst freed.
  unfold destroy_made_transport_stream_op, bind, load_made_transport_stream_op,
    heap_delete, Closure_Run, ret.
  rewrite Hop. simpl. rewrite Hop. by destruct (mtso_inner_on_complete o).
Qed.

Lemma invoke_made_transport_op_wrapper (fuel : nat) (op : addr)
    (o : made_transport_op) (error : grpc_error_handle) (w : World) :
  heap w !! op = Some (AllocTransportOp o) ->
  let wrapper := Closure (Some cb_destroy_made_transport_op) (Some op) in
  let runs := match mto_inner_on_complete o with
              | Some c => [(c, error)]
              | None => []
              end in
  grpc_closure_invoke (S fuel) wrapper error w =
  Done tt
    (set_trace
       (trace w ++ EvInvoke wrapper error :: map schedule_event runs ++
                   [EvDelete op])
       (set_heap (delete op (heap w))
          (set_exec_ctx (exec_ctx_flags w) (exec_ctx_closures w ++ runs) w))).
Proof.
  intros Hop wrapper runs. simpl. unfold bind, emit.
  rewrite (destroy_made_transport_op_run op o) by exact Hop.
  fold runs. destruct w. unfold set_trace, set_heap, set_exec_ctx. simpl.
  by rewrite <- app_assoc.
Qed.

Lemma invoke_made_transport_stream_op_wrapper (fuel : nat) (op : addr)
    (o : made_transport_stream_op) (error : grpc_error_handle) (w : World) :
  heap w !! op = Some (AllocTransportStreamOp o) ->
  let wrapper := Closure (Some cb_destroy_made_transport_stream_op) (Some op) in
  let freed := set_trace (trace w ++ [EvInvoke wrapper error; EvDelete op])
                 (set_heap (delete op (heap w)) w) in
  grpc_closure_invoke (S fuel) wrapper error w =
  match mtso_inner_on_complete o with
  | Some c => grpc_closure_invoke fuel c error freed
  | None => Done tt freed
  end.
Proof.
  intros Hop wrapper freed. simpl. unfold bind, emit.
  rewrite (destroy_made_transport_stream_op_run _ op o) by exact Hop.
  subst freed. destruct w. unfold set_trace, set_heap. simpl.
  by rewrite <- app_assoc.
Qed.

Lemma external_is_not_wrapper (c : grpc_closure) (cb : grpc_iomgr_cb_func)
    (arg : option addr) :
  is_external c ->
  (cb = cb_destroy_made_transport_op \/
   cb = cb_destroy_made_transport_stream_op) ->
  Closure (Some cb) arg <> c.
Proof.
  intros [f Hf] Hcb <-. simpl in Hf. destruct Hcb; simplify_eq.
Qed.

Lemma transport_fires_made_transport_op (fuel : nat) (op : addr)
    (o : made_transport_op) (error : grpc_error_handle) (w : World) :
  heap w !! op = Some (AllocTransportOp o) ->
  exec_ctx_closures w = [] ->
  (forall c, mto_inner_on_complete o = Some c -> is_external c) ->
  let wrapper := Closure (Some cb_destroy_made_transport_op) (Some op) in
  exists w',
    transport_fires (S (S fuel)) wrapper error w = Done tt w' /\
    trace w' =
      trace w ++
      EvInvoke wrapper error ::
      match mto_inner_on_complete o with
      | Some c => [EvSchedule c error; EvDelete op; EvInvoke c error]
      | None => [EvDelete op]
      end /\
    heap w' = delete op (heap w).
Proof.
  intros Hop Hidle Hext wrapper. unfold transport_fires, bind.
  rewrite (invoke_made_transport_op_wrapper _ op o) by exact Hop.
  destruct (mto_inner_on_complete o) as [c|].
  - cbn [ExecCtx_Flush exec_ctx_closures set_trace set_heap set_exec_ctx].
    rewrite Hidle. cbn [app]. unfold bind.
    rewrite grpc_closure_invoke_external by (by apply Hext).
    cbn [ExecCtx_Flush exec_ctx_closures set_trace set_heap set_exec_ctx].
    eexists. split; [reflexivity|]. simpl.
    split; [|reflexivity]. by rewrite <- !app_assoc.
  - cbn [ExecCtx_Flush exec_ctx_closures set_trace set_heap set_exec_ctx].
    rewrite Hidle. cbn [app].
    eexists. split; [reflexivity|]. simpl. done.
Qed.

Lemma transport_fires_made_transport_stream_op (fuel : nat) (op : addr)
    (o : made_transport_stream_op) (error : grpc_error_handle) (w : World) :
  heap w !! op = Some (AllocTransportStreamOp o) ->
  exec_ctx_closures w = [] ->
  (forall c, mtso_inner_on_complete o = Some c -> is_external c) ->
  let wrapper := Closure (Some cb_destroy_made_transport_stream_op) (Some op) in
  exists w',
    transport_fires (S (S fuel)) wrapper error w = Done tt w' /\
    trace w' =
      trace w ++
      EvInvoke wrapper error ::
      match mtso_inner_on_complete o with
      | Some c => [EvDelete op; EvInvoke c error]
      | None => [EvDelete op]
      end /\
    heap w' = delete op (heap w).
Proof.
  intros Hop Hidle Hext wrapper. unfold transport_fires, bind.
  rewrite (invoke_made_transport_stream_op_wrapper _ op o) by exact Hop.
  destruct (mtso_inner_on_complete o) as [c|].
  - rewrite grpc_closure_invoke_external by (by apply Hext).
    cbn [ExecCtx_Flush exec_ctx_closures set_trace set_heap set_exec_ctx].
    rewrite Hidle.
    eexists. split; [reflexivity|]. simpl.
    split; [|reflexivity]. by rewrite <- !app_assoc.
  - cbn [ExecCtx_Flush exec_ctx_closures set_trace set_heap set_exec_ctx].
    rewrite Hidle.
    eexists. split; [reflexivity|]. simpl. done.
Qed.

Lemma wrapper_trace_observations (inner : option grpc_closure)
    (wrapper : grpc_closure) (op : addr) (error : grpc_error_handle)
    (scheduled : bool) :
  (forall c, inner = Some c -> wrapper <> c) ->
  let events :=
    EvInvoke wrapper error ::
    match inner with
    | Some c =>
        (if scheduled then [EvSchedule c error] else []) ++
        [EvDelete op; EvInvoke c error]
    | None => [EvDelete op]
    end in
  (forall c, inner = Some c -> invocations_of c events = [error]) /\
  (inner = None -> forwardings wrapper events = []) /\
  deletions_of op events = 1%nat.
Proof.
  intros Hne events. subst events. split; [|split].
  - intros c ->. specialize (Hne c eq_refl).
    unfold invocations_of. destruct scheduled; simpl;
      repeat case_decide; simplify_eq; done.
  - intros ->. simpl. by case_decide.
  - unfold deletions_of. destruct inner as [c|], scheduled; simpl;
      repeat case_bool_decide; simplify_eq; done.
Qed.

(** C7.  The transport calls the wrapper closure of a synthetic operation
    with some error, on an execution context with nothing pending, and the
    context is flushed.  For both factories: a caller's [on_complete] is
    called exactly once, with that error; when the caller gave none, nothing
    is handed on; the wrapper's allocation is freed exactly once and is gone
    afterwards. *)
Theorem synthetic_op_wrapper_forwards_once_frees_once
    (inner : option grpc_closure) (error : grpc_error_handle) (fuel : nat)
    (w : World) :
  exec_ctx_closures w = [] ->
  (forall c, inner = Some c -> is_external c) ->
  (exists op w1 wrapper w2,
      grpc_make_transport_op inner w = Done op w1 /\
      on_consumed <$> made_transport_op_at w1 op = Some (Some wrapper) /\
      transport_fires (S (S fuel)) wrapper error w1 = Done tt w2 /\
      (forall c, inner = Some c ->
                 invocations_of c (events_since w1 w2) = [error]) /\
      (inner = None -> forwardings wrapper (events_since w1 w2) = []) /\
      deletions_of op (events_since w1 w2) = 1%nat /\
      heap w2 !! op = None) /\
  (exists op w1 wrapper w2,
      grpc_make_transport_stream_op inner w = Done op w1 /\
      on_complete <$> made_transport_stream_op_at w1 op = Some (Some wrapper) /\
      transport_fires (S (S fuel)) wrapper error w1 = Done tt w2 /\
      (forall c, inner = Some c ->
                 invocations_of c (events_since w1 w2) = [error]) /\
      (inner = None -> forwardings wrapper (events_since w1 w2) = []) /\
      deletions_of op (events_since w1 w2) = 1%nat /\
      heap w2 !! op = None).
Proof.
  intros Hidle Hext. split.
  - pose proof (grpc_make_transport_op_run inner w) as Hmake. simpl in Hmake.
    set (op := fresh (dom (heap w))) in *.
    set (wrapper := Closure (Some cb_destroy_made_transport_op) (Some op)) in *.
    set (o := mkMadeTransportOp wrapper inner (mkTransportOp (Some wrapper))) in *.
    match type of Hmake with _ = Done _ ?made => set (w1 := made) in * end.
    destruct (transport_fires_made_transport_op fuel op o error w1)
      as (w2 & Hrun & Htrace & Hheap);
      [apply lookup_insert_eq|exact Hidle|exact Hext|].
    exists op, w1, wrapper, w2.
    split; [exact Hmake|].
    split; [unfold made_transport_op_at; simpl; by rewrite lookup_insert_eq|].
    split; [exact Hrun|].
    rewrite (events_since_app _ _ _ Htrace).
    destruct (wrapper_trace_observations inner wrapper op error true)
      as (Hinv & Hfwd & Hdel).
    { intros c Hc. apply external_is_not_wrapper; auto. }
    split; [exact Hinv|]. split; [exact Hfwd|]. split; [exact Hdel|].
    rewrite Hheap. apply lookup_delete_eq.
  - pose proof (grpc_make_transport_stream_op_run inner w) as Hmake.
    simpl in Hmake.
    set (op := fresh (dom (heap w))) in *.
    set (wrapper :=
           Closure (Some cb_destroy_made_transport_stream_op) (Some op)) in *.
    set (o := mkMadeTransportStreamOp wrapper inner
                (set_batch_on_complete (Some wrapper) empty_batch)) in *.
    match type of Hmake with _ = Done _ ?made => set (w1 := made) in * end.
    destruct (transport_fires_made_transport_stream_op fuel op o error w1)
      as (w2 & Hrun & Htrace & Hheap);
      [apply lookup_insert_eq|exact Hidle|exact Hext|].
    exists op, w1, wrapper, w2.
    split; [exact Hmake|].
    split; [unfold made_transport_stream_op_at; simpl;
            by rewrite lookup_insert_eq|].
    split; [exact Hrun|].
    rewrite (events_since_app _ _ _ Htrace).
    destruct (wrapper_trace_observations inner wrapper op error false)
      as (Hinv & Hfwd & Hdel).
    { intros c Hc. apply external_is_not_wrapper; auto. }
    split; [exact Hinv|]. split; [exact Hfwd|]. split; [exact Hdel|].
    rewrite Hheap. apply lookup_delete_eq.
Qed.

(** The theorem for a caller's closure and a failure status, from the empty
    world. *)
Lemma synthetic_op_wrapper_forwards_once_frees_once_witness :
  let c := external_closure 7 None in
  let error := ErrorStatus 14 "reset" in
  exec_ctx_closures empty_world = [] /\
  (exists op w1 wrapper w2,
      grpc_make_transport_op (Some c) empty_world = Done op w1 /\
      transport_fires 2 wrapper error w1 = Done tt w2 /\
      invocations_of c (events_since w1 w2) = [error] /\
      deletions_of op (events_since w1 w2) = 1%nat) /\
  (exists op w1 wrapper w2,
      grpc_make_transport_stream_op (Some c) empty_world = Done op w1 /\
      transport_fires 2 wrapper error w1 = Done tt w2 /\
      invocations_of c (events_since w1 w2) = [error] /\
      deletions_of op (events_since w1 w2) = 1%nat).
Proof.
  intros c error. split; [reflexivity|].
  destruct (synthetic_op_wrapper_forwards_once_frees_once
              (Some c) error 0 empty_world eq_refl) as [Hop Hstream].
  { intros c' Hc'. injection Hc' as <-. exists 7%positive. reflexivity. }
  split.
  - destruct Hop as (op & w1 & wrapper & w2 & Hmake & _ & Hrun & Hinv & _ &
                     Hdel & _).
    exists op, w1, wrapper, w2. repeat split; auto.
  - destruct Hstream as (op & w1 & wrapper & w2 & Hmake & _ & Hrun & Hinv & _ &
                         Hdel & _).
    exists op, w1, wrapper, w2. repeat split; auto.
Defined.

(** C8, as the code has it.  The wrapper of [grpc_make_transport_op]
    schedules the caller's [on_complete] (when there is one) with the error
    it received and then frees its allocation.  The wrapper of
    [grpc_make_transport_stream_op] reads the caller's [on_complete], frees
    its allocation, and only then calls that closure (when there is one)
    with the error it received. *)
Theorem wrapper_forwarding_and_free_order
    (inner : option grpc_closure) (error : grpc_error_handle) (fuel : nat)
    (w : World) :
  (exists op w1 wrapper w2,
      grpc_make_transport_op inner w = Done op w1 /\
      on_consumed <$> made_transport_op_at w1 op = Some (Some wrapper) /\
      grpc_closure_invoke (S fuel) wrapper error w1 = Done tt w2 /\
      events_since w1 w2 =
        EvInvoke wrapper error ::
        match inner with
        | Some c => [EvSchedule c error; EvDelete op]
        | None => [EvDelete op]
        end /\
      (forall c, inner = Some c ->
                 forwards_then_frees c error op (events_since w1 w2) = true)) /\
  (exists op w1 wrapper freed,
      grpc_make_transport_stream_op inner w = Done op w1 /\
      on_complete <$> made_transport_stream_op_at w1 op = Some (Some wrapper) /\
      freed = set_trace (trace w1 ++ [EvInvoke wrapper error; EvDelete op])
                (set_heap (delete op (heap w1)) w1) /\
      grpc_closure_invoke (S fuel) wrapper error w1 =
        match inner with
        | Some c => grpc_closure_invoke fuel c error freed
        | None => Done tt freed
        end /\
      (forall c, inner = Some c -> is_external c ->
         exists w2,
           grpc_closure_invoke (S (S fuel)) wrapper error w1 = Done tt w2 /\
           events_since w1 w2 =
             [EvInvoke wrapper error; EvDelete op; EvInvoke c error] /\
           forwards_then_frees c error op (events_since w1 w2) = false)).
Proof.
  split.
  - pose proof (grpc_make_transport_op_run inner w) as Hmake. simpl in Hmake.
    set (op := fresh (dom (heap w))) in *.
    set (wrapper := Closure (Some cb_destroy_made_transport_op) (Some op)) in *.
    eexists op, _, wrapper, _.
    split; [exact Hmake|].
    split; [unfold made_transport_op_at; simpl; by rewrite lookup_insert_eq|].
    split.
    { apply invoke_made_transport_op_wrapper. simpl. apply lookup_insert_eq. }
    match goal with |- ?A /\ _ => assert (Hev : A) end.
    { apply events_since_app. simpl. by destruct inner. }
    split; [exact Hev|].
    intros c ->. rewrite Hev. unfold forwards_then_frees. simpl.
    rewrite (bool_decide_eq_true_2 (EvSchedule c error = EvSchedule c error)) by done.
    rewrite (bool_decide_eq_true_2 (EvDelete op ∈ [EvDelete op])) by set_solver.
    simpl. by rewrite ?orb_true_r.
  - pose proof (grpc_make_transport_stream_op_run inner w) as Hmake.
    simpl in Hmake.
    set (op := fresh (dom (heap w))) in *.
    set (wrapper := Closure (Some cb_destroy_made_transport_stream_op) (Some op)) in *.
    eexists op, _, wrapper, _.
    split; [exact Hmake|].
    split; [unfold made_transport_stream_op_at; simpl;
            by rewrite lookup_insert_eq|].
    split; [reflexivity|].
    match goal with |- ?A /\ _ => assert (Hrun : A) end.
    { rewrite (invoke_made_transport_stream_op_wrapper fuel op
                 (mkMadeTransportStreamOp wrapper inner
                    (set_batch_on_complete (Some wrapper) empty_batch)))
        by (simpl; apply lookup_insert_eq).
      reflexivity. }
    split; [exact Hrun|].
    intros c -> Hext.
    eexists. split.
    { rewrite (invoke_made_transport_stream_op_wrapper (S fuel) op
                 (mkMadeTransportStreamOp wrapper (Some c)
                    (set_batch_on_complete (Some wrapper) empty_batch)))
        by (simpl; apply lookup_insert_eq).
      simpl mtso_inner_on_complete. cbv iota.
      by rewrite grpc_closure_invoke_external. }
    match goal with |- ?A /\ _ => assert (Hev : A) end.
    { apply events_since_app. simpl. by rewrite <- app_assoc. }
    split; [exact Hev|].
    rewrite Hev. unfold forwards_then_frees. simpl.
    assert (wrapper <> c) by (apply external_is_not_wrapper; auto).
    repeat case_bool_decide; simplify_eq/=; try done; set_solver.
Qed.

(** The theorem for a caller's closure given to the stream-op factory. *)
Lemma wrapper_forwarding_and_free_order_witness :
  let c := external_closure 7 None in
  let error := ErrorStatus 14 "reset" in
  exists op w1 wrapper w2,
    grpc_make_transport_stream_op (Some c) empty_world = Done op w1 /\
    grpc_closure_invoke 2 wrapper error w1 = Done tt w2 /\
    events_since w1 w2 =
      [EvInvoke wrapper error; EvDelete op; EvInvoke c error].
Proof.
  intros c error.
  destruct (wrapper_forwarding_and_free_order (Some c) error 0 empty_world)
    as [_ (op & w1 & wrapper & freed & Hmake & _ & _ & _ & Hext)].
  destruct (Hext c eq_refl) as (w2 & Hrun & Hev & _).
  { exists 7%positive. reflexivity. }
  exists op, w1, wrapper, w2. repeat split; assumption.
Defined.

(** C8, as stated, fails for the stream-op wrapper: called with a caller's
    [on_complete], it frees its allocation first and calls the closure
    afterwards. *)
Lemma stream_op_wrapper_frees_before_forwarding :
  let c := external_closure 7 None in
  let error := ErrorStatus 14 "reset" in
  exists op w1 wrapper w2,
    grpc_make_transport_stream_op (Some c) empty_world = Done op w1 /\
    on_complete <$> made_transport_stream_op_at w1 op = Some (Some wrapper) /\
    grpc_closure_invoke 2 wrapper error w1 = Done tt w2 /\
    events_since w1 w2 =
      [EvInvoke wrapper error; EvDelete op; EvInvoke c error] /\
    forwards_then_frees c error op (events_since w1 w2) = false.
Proof.
  intros c error. eexists _, _, _, _.
  split; [vm_compute; reflexivity|].
  split; [vm_compute; reflexivity|].
  split; [vm_compute; reflexivity|].
  split; vm_compute; reflexivity.
Qed.

(** * Further properties *)

(** ** What the factories set up *)

Lemma fresh_address_unused (w : World) : heap w !! fresh (dom (heap w)) = None.
Proof. apply not_elem_of_dom, is_fresh. Qed.

(** X1.  [grpc_make_transport_op] allocates at an address that was not in
    use, leaves every other allocation and the executors as they were, and
    sets the op up so that [on_consumed] is the wrapper closure, whose
    callback is [destroy_made_transport_op] and whose argument is the
    allocation itself; the caller's closure is kept as [inner_on_complete]. *)
Theorem grpc_make_transport_op_allocates_fresh
    (inner : option grpc_closure) (w : World) :
  exists op w',
    grpc_make_transport_op inner w = Done op w' /\
    heap w !! op = None /\
    heap w' !! op =
      Some (AllocTransportOp
              (mkMadeTransportOp (transport_op_wrapper op) inner
                 (mkTransportOp (Some (transport_op_wrapper op))))) /\
    delete op (heap w') = heap w /\
    exec_ctx_flags w' = exec_ctx_flags w /\
    exec_ctx_closures w' = exec_ctx_closures w /\
    event_engine_tasks w' = event_engine_tasks w /\
    call_combiner_work w' = call_combiner_work w /\
    events_since w w' = [EvNew op].
Proof.
  pose proof (grpc_make_transport_op_run inner w) as Hmake. simpl in Hmake.
  pose proof (fresh_address_unused w) as Hfresh.
  set (op := fresh (dom (heap w))) in *.
  eexists op, _. split; [exact Hmake|]. simpl.
  split; [exact Hfresh|].
  split; [apply lookup_insert_eq|].
  split; [by apply delete_insert_id|].
  repeat (split; [reflexivity|]). by apply events_since_app.
Qed.

(** X2.  [grpc_make_transport_stream_op] allocates at an address that was
    not in use and leaves every other allocation and the executors as they
    were.  The batch it returns asks for nothing but [on_complete], which is
    the wrapper closure with the allocation as its argument: failing that
    batch selects the wrapper and nothing else. *)
Theorem grpc_make_transport_stream_op_allocates_fresh
    (inner : option grpc_closure) (error : grpc_error_handle) (w : World) :
  exists op w' batch,
    grpc_make_transport_stream_op inner w = Done op w' /\
    heap w !! op = None /\
    heap w' !! op =
      Some (AllocTransportStreamOp
              (mkMadeTransportStreamOp (transport_stream_op_wrapper op) inner
                 batch)) /\
    made_transport_stream_op_at w' op = Some batch /\
    on_complete batch = Some (transport_stream_op_wrapper op) /\
    payload batch = empty_payload /\
    failure_entries batch error =
      [mkEntry (Some (transport_stream_op_wrapper op)) error
         "failing on_complete"] /\
    delete op (heap w') = heap w /\
    exec_ctx_flags w' = exec_ctx_flags w /\
    exec_ctx_closures w' = exec_ctx_closures w /\
    event_engine_tasks w' = event_engine_tasks w /\
    call_combiner_work w' = call_combiner_work w /\
    events_since w w' = [EvNew op].
Proof.
  pose proof (grpc_make_transport_stream_op_run inner w) as Hmake.
  simpl in Hmake.
  pose proof (fresh_address_unused w) as Hfresh.
  set (op := fresh (dom (heap w))) in *.
  eexists op, _, _. split; [exact Hmake|]. simpl.
  split; [exact Hfresh|].
  split; [apply lookup_insert_eq|].
  split; [unfold made_transport_stream_op_at; simpl;
          by rewrite lookup_insert_eq|].
  split; [reflexivity|]. split; [reflexivity|]. split; [reflexivity|].
  split; [by apply delete_insert_id|].
  repeat (split; [reflexivity|]). by apply events_since_app.
Qed.

(** ** Life of a synthetic operation *)

Lemma invoke_dangling_wrapper (fuel : nat) (op : addr)
    (error : grpc_error_handle) (w : World) :
  heap w !! op = None ->
  grpc_closure_invoke (S fuel) (transport_op_wrapper op) error w = Fault /\
  grpc_closure_invoke (S fuel) (transport_stream_op_wrapper op) error w = Fault.
Proof.
  intros Hgone. split; simpl; unfold bind, emit; simpl;
    unfold destroy_made_transport_op, destroy_made_transport_stream_op, bind,
      load_made_transport_op, load_made_transport_stream_op; simpl;
    by rewrite Hgone.
Qed.

Lemma made_transport_op_fired (inner : option grpc_closure)
    (error : grpc_error_handle) (fuel : nat) (w : World) :
  let op := fresh (dom (heap w)) in
  exists w1 w2,
    grpc_make_transport_op inner w = Done op w1 /\
    grpc_closure_invoke (S fuel) (transport_op_wrapper op) error w1 =
      Done tt w2 /\
    heap w2 = heap w.
Proof.
  intros op.
  pose proof (grpc_make_transport_op_run inner w) as Hmake. simpl in Hmake.
  fold op in Hmake.
  eexists _, _. split; [exact Hmake|].
  split.
  - apply invoke_made_transport_op_wrapper. simpl. apply lookup_insert_eq.
  - simpl. apply delete_insert_id, fresh_address_unused.
Qed.

Lemma made_transport_stream_op_fired (inner : option grpc_closure)
    (error : grpc_error_handle) (fuel : nat) (w : World) :
  (forall c, inner = Some c -> is_external c) ->
  let op := fresh (dom (heap w)) in
  exists w1 w2,
    grpc_make_transport_stream_op inner w = Done op w1 /\
    grpc_closure_invoke (S (S fuel)) (transport_stream_op_wrapper op) error w1 =
      Done tt w2 /\
    heap w2 = heap w.
Proof.
  intros Hext op.
  pose proof (grpc_make_transport_stream_op_run inner w) as Hmake.
  simpl in Hmake. fold op in Hmake.
  pose proof (invoke_made_transport_stream_op_wrapper (S fuel) op
                (mkMadeTransportStreamOp
                   (Closure (Some cb_destroy_made_transport_stream_op) (Some op))
                   inner
                   (set_batch_on_complete
                      (Some (Closure (Some cb_destroy_made_transport_stream_op)
                                     (Some op))) empty_batch))
                error) as Hrun.
  cbn [mtso_inner_on_complete] in Hrun.
  destruct inner as [c|].
  - eexists _, _. split; [exact Hmake|].
    unfold transport_stream_op_wrapper, GRPC_CLOSURE_INIT.
    rewrite Hrun by (simpl; apply lookup_insert_eq).
    rewrite grpc_closure_invoke_external by (by apply Hext).
    split; [reflexivity|]. simpl. apply delete_insert_id, fresh_address_unused.
  - eexists _, _. split; [exact Hmake|].
    unfold transport_stream_op_wrapper, GRPC_CLOSURE_INIT.
    rewrite Hrun by (simpl; apply lookup_insert_eq).
    split; [reflexivity|]. simpl. apply delete_insert_id, fresh_address_unused.
Qed.

(** X4.  Creating a synthetic operation and letting its wrapper run once
    gives back every byte: the allocations afterwards are exactly those from
    before the factory was called, for either factory, with or without a
    caller's [on_complete]. *)
Theorem synthetic_op_life_restores_heap
    (inner : option grpc_closure) (error : grpc_error_handle) (fuel : nat)
    (w : World) :
  (forall c, inner = Some c -> is_external c) ->
  (exists op w1 w2,
      grpc_make_transport_op inner w = Done op w1 /\
      grpc_closure_invoke (S fuel) (transport_op_wrapper op) error w1 =
        Done tt w2 /\
      heap w2 = heap w) /\
  (exists op w1 w2,
      grpc_make_transport_stream_op inner w = Done op w1 /\
      grpc_closure_invoke (S (S fuel)) (transport_stream_op_wrapper op)
        error w1 = Done tt w2 /\
      heap w2 = heap w).
Proof.
  intros Hext. split.
  - destruct (made_transport_op_fired inner error fuel w)
      as (w1 & w2 & Hmake & Hrun & Hheap).
    by exists (fresh (dom (heap w))), w1, w2.
  - destruct (made_transport_stream_op_fired inner error fuel w Hext)
      as (w1 & w2 & Hmake & Hrun & Hheap).
    by exists (fresh (dom (heap w))), w1, w2.
Qed.

(** The theorem for a caller's closure, from the empty world. *)
Lemma synthetic_op_life_restores_heap_witness :
  let c := external_closure 7 None in
  exists op w1 w2,
    grpc_make_transport_stream_op (Some c) empty_world = Done op w1 /\
    grpc_closure_invoke 2 (transport_stream_op_wrapper op)
      (ErrorStatus 14 "reset") w1 = Done tt w2 /\
    heap w2 = heap empty_world.
Proof.
  intros c.
  destruct (synthetic_op_life_restores_heap (Some c) (ErrorStatus 14 "reset")
              0 empty_world) as [_ Hstream].
  { intros c' Hc'. injection Hc' as <-. exists 7%positive. reflexivity. }
  exact Hstream.
Defined.

(** X5.  A wrapper closure is good for one call.  Once it has run, its
    allocation is gone, and a second call of the same closure reads freed
    memory: undefined behaviour, whatever the error and however much fuel. *)
Theorem synthetic_op_wrapper_is_single_use
    (inner : option grpc_closure) (error : grpc_error_handle) (fuel : nat)
    (w : World) :
  (forall c, inner = Some c -> is_external c) ->
  (exists op w1 w2,
      grpc_make_transport_op inner w = Done op w1 /\
      grpc_closure_invoke (S fuel) (transport_op_wrapper op) error w1 =
        Done tt w2 /\
      forall error' fuel',
        grpc_closure_invoke (S fuel') (transport_op_wrapper op) error' w2 =
        Fault) /\
  (exists op w1 w2,
      grpc_make_transport_stream_op inner w = Done op w1 /\
      grpc_closure_invoke (S (S fuel)) (transport_stream_op_wrapper op)
        error w1 = Done tt w2 /\
      forall error' fuel',
        grpc_closure_invoke (S fuel') (transport_stream_op_wrapper op)
          error' w2 = Fault).
Proof.
  intros Hext. split.
  - destruct (made_transport_op_fired inner error fuel w)
      as (w1 & w2 & Hmake & Hrun & Hheap).
    exists (fresh (dom (heap w))), w1, w2.
    split; [exact Hmake|]. split; [exact Hrun|].
    intros error' fuel'. apply invoke_dangling_wrapper.
    rewrite Hheap. apply fresh_address_unused.
  - destruct (made_transport_stream_op_fired inner error fuel w Hext)
      as (w1 & w2 & Hmake & Hrun & Hheap).
    exists (fresh (dom (heap w))), w1, w2.
    split; [exact Hmake|]. split; [exact Hrun|].
    intros error' fuel'. apply invoke_dangling_wrapper.
    rewrite Hheap. apply fresh_address_unused.
Qed.

(** The theorem for a caller's closure, from the empty world. *)
Lemma synthetic_op_wrapper_is_single_use_witness :
  let c := external_closure 7 None in
  exists op w1 w2,
    grpc_make_transport_op (Some c) empty_world = Done op w1 /\
    grpc_closure_invoke 1 (transport_op_wrapper op)
      (ErrorStatus 14 "reset") w1 = Done tt w2 /\
    grpc_closure_invoke 1 (transport_op_wrapper op) OkStatus w2 = Fault.
Proof.
  intros c.
  destruct (synthetic_op_wrapper_is_single_use (Some c)
              (ErrorStatus 14 "reset") 0 empty_world)
    as [(op & w1 & w2 & Hmake & Hrun & Hagain) _].
  { intros c' Hc'. injection Hc' as <-. exists 7%positive. reflexivity. }
  exists op, w1, w2. repeat split; [exact Hmake|exact Hrun|apply Hagain].
Defined.

(** ** Failure propagation, end to end *)

Lemma ExecCtx_Flush_step (fuel : nat) (c : grpc_closure)
    (error : grpc_error_handle)
    (rest : list (grpc_closure * grpc_error_handle)) (w : World) :
  exec_ctx_closures w = (c, error) :: rest ->
  ExecCtx_Flush (S fuel) w =
  (grpc_closure_invoke fuel c error ;; ExecCtx_Flush fuel)
    (set_exec_ctx (exec_ctx_flags w) rest w).
Proof. intros Hq. simpl. by rewrite Hq. Qed.

Lemma ExecCtx_Flush_idle (fuel : nat) (w : World) :
  exec_ctx_closures w = [] -> ExecCtx_Flush fuel w = Done tt w.
Proof. intros Hq. destruct fuel; simpl; by rewrite Hq. Qed.

Lemma ExecCtx_Flush_external (q : list (grpc_closure * grpc_error_handle)) :
  forall (fuel : nat) (w : World),
    exec_ctx_closures w = q ->
    Forall (fun ce => is_external (fst ce)) q ->
    (length q < fuel)%nat ->
    ExecCtx_Flush fuel w =
    Done tt (set_trace (trace w ++ map invoke_event q)
               (set_exec_ctx (exec_ctx_flags w) [] w)).
Proof.
  induction q as [|[c e] q IH]; intros fuel w Hq Hext Hfuel.
  - rewrite ExecCtx_Flush_idle by exact Hq.
    destruct w. simpl in *. subst.
    unfold set_trace, set_exec_ctx. simpl. by rewrite app_nil_r.
  - destruct fuel as [|[|fuel]]; [simpl in Hfuel; lia..|].
    rewrite (ExecCtx_Flush_step _ c e q) by exact Hq. unfold bind.
    inversion Hext as [|? ? Hc Hrest]; subst.
    rewrite grpc_closure_invoke_external by exact Hc.
    rewrite (IH (S fuel)); [|reflexivity|exact Hrest|simpl in *; lia].
    destruct w. unfold set_trace, set_exec_ctx. simpl.
    by rewrite <- app_assoc.
Qed.

Lemma slot_runs_length (batch : grpc_transport_stream_op_batch)
    (error : grpc_error_handle) :
  (length (omap entry_runnable (failure_entries batch error)) <= 4)%nat.
Proof.
  unfold failure_entries, slot_entries.
  destruct batch as [oc [c1 c2 c3] si st sm ri rm rt cs].
  destruct ri, rm, rt, oc, c1, c2, c3; simpl; lia.
Qed.

(** X6.  Failing a batch from the transport on an execution context with
    nothing pending, and flushing the context, calls every closure the batch
    holds for a requested slot exactly once, with the error, in slot order
    ([on_complete] last), after all of them were scheduled; the context is
    empty again and no allocation is touched. *)
Theorem failing_from_transport_calls_each_closure_once
    (batch : grpc_transport_stream_op_batch) (error : grpc_error_handle)
    (fuel : nat) (w : World) :
  exec_ctx_closures w = [] ->
  Forall (fun ce => is_external (fst ce))
         (concat (map (slot_runs batch error) all_slots)) ->
  exists w',
    (grpc_transport_stream_op_batch_finish_with_failure_from_transport
       batch error ;; ExecCtx_Flush (5 + fuel)) w = Done tt w' /\
    events_since w w' =
      map schedule_event (concat (map (slot_runs batch error) all_slots)) ++
      map invoke_event (concat (map (slot_runs batch error) all_slots)) /\
    exec_ctx_closures w' = [] /\
    exec_ctx_flags w' = exec_ctx_flags w /\
    heap w' = heap w.
Proof.
  intros Hidle Hext.
  assert (Hruns : omap entry_runnable (failure_entries batch error) =
                  concat (map (slot_runs batch error) all_slots)).
  { unfold failure_entries, slot_entries, slot_runs.
    destruct batch as [oc [c1 c2 c3] si st sm ri rm rt cs].
    destruct ri, rm, rt, oc, c1, c2, c3; reflexivity. }
  pose proof (slot_runs_length batch error) as Hlen.
  rewrite Hruns in Hlen.
  unfold bind. rewrite from_transport_run. cbv zeta. rewrite Hruns.
  set (runs := concat (map (slot_runs batch error) all_slots)) in *.
  rewrite (ExecCtx_Flush_external runs);
    [|simpl; by rewrite Hidle|exact Hext|simpl; lia].
  eexists. split; [reflexivity|]. simpl.
  split; [apply events_since_app; simpl; by rewrite <- app_assoc|].
  repeat split.
Qed.

(** The theorem at a batch with [recv_message] and [on_complete]. *)
Lemma failing_from_transport_calls_each_closure_once_witness :
  let ready := external_closure 5 None in
  let done := external_closure 6 None in
  let error := ErrorStatus 14 "reset" in
  let batch :=
    mkBatch (Some done) (mkPayload None (Some ready) None)
            false false true false true false false in
  exists w',
    (grpc_transport_stream_op_batch_finish_with_failure_from_transport
       batch error ;; ExecCtx_Flush 5) empty_world = Done tt w' /\
    events_since empty_world w' =
      [EvSchedule ready error; EvSchedule done error;
       EvInvoke ready error; EvInvoke done error].
Proof.
  intros ready done error batch.
  destruct (failing_from_transport_calls_each_closure_once batch error 0
              empty_world eq_refl) as (w' & Hrun & Hev & _).
  { repeat constructor; simpl; eexists; reflexivity. }
  exists w'. split; [exact Hrun|exact Hev].
Defined.

(** X7.  A synthetic stream operation that the transport fails: the batch
    the factory returned is failed from the transport and the context is
    flushed.  The wrapper is scheduled and called, frees its allocation, and
    the caller's [on_complete], when there is one, is called once with the
    error; no allocation made on the way is left, and nothing stays
    pending. *)
Theorem failing_synthetic_stream_op_from_transport
    (inner : option grpc_closure) (error : grpc_error_handle) (fuel : nat)
    (w : World) :
  exec_ctx_closures w = [] ->
  (forall c, inner = Some c -> is_external c) ->
  exists op w1 batch w2,
    grpc_make_transport_stream_op inner w = Done op w1 /\
    made_transport_stream_op_at w1 op = Some batch /\
    (grpc_transport_stream_op_batch_finish_with_failure_from_transport
       batch error ;; ExecCtx_Flush (3 + fuel)) w1 = Done tt w2 /\
    events_since w1 w2 =
      [EvSchedule (transport_stream_op_wrapper op) error;
       EvInvoke (transport_stream_op_wrapper op) error;
       EvDelete op] ++
      match inner with
      | Some c => [EvInvoke c error]
      | None => []
      end /\
    heap w2 = heap w /\
    exec_ctx_closures w2 = [].
Proof.
  intros Hidle Hext.
  pose proof (grpc_make_transport_stream_op_run inner w) as Hmake.
  simpl in Hmake.
  pose proof (fresh_address_unused w) as Hfresh.
  set (op := fresh (dom (heap w))) in *.
  set (wrapper := Closure (Some cb_destroy_made_transport_stream_op) (Some op))
    in *.
  set (o := mkMadeTransportStreamOp wrapper inner
              (set_batch_on_complete (Some wrapper) empty_batch)) in *.
  match type of Hmake with _ = Done _ ?made => set (w1 := made) in * end.
  assert (Hlive : heap w1 !! op = Some (AllocTransportStreamOp o))
    by apply lookup_insert_eq.
  pose proof (invoke_made_transport_stream_op_wrapper (S fuel) op o error)
    as Hwrapper.
  cbn [mtso_inner_on_complete o] in Hwrapper. fold wrapper in Hwrapper.
  assert (Hruns : omap entry_runnable (failure_entries (mtso_op o) error) =
                  [(wrapper, error)]) by reflexivity.
  destruct inner as [c|].
  - eexists op, w1, (mtso_op o), _.
    split; [exact Hmake|].
    split; [unfold made_transport_stream_op_at; by rewrite Hlive|].
    split.
    { unfold bind. rewrite from_transport_run. cbv zeta. rewrite Hruns.
      change (3 + fuel)%nat with (S (S (S fuel))).
      rewrite (ExecCtx_Flush_step _ wrapper error [])
        by (simpl; by rewrite Hidle).
      unfold bind. rewrite Hwrapper by apply lookup_insert_eq.
      rewrite grpc_closure_invoke_external by (by apply Hext).
      rewrite ExecCtx_Flush_idle by reflexivity. reflexivity. }
    split; [apply events_since_app; simpl; by rewrite <- !app_assoc|].
    split; [simpl; by apply delete_insert_id|reflexivity].
  - eexists op, w1, (mtso_op o), _.
    split; [exact Hmake|].
    split; [unfold made_transport_stream_op_at; by rewrite Hlive|].
    split.
    { unfold bind. rewrite from_transport_run. cbv zeta. rewrite Hruns.
      change (3 + fuel)%nat with (S (S (S fuel))).
      rewrite (ExecCtx_Flush_step _ wrapper error [])
        by (simpl; by rewrite Hidle).
      unfold bind. rewrite Hwrapper by apply lookup_insert_eq.
      rewrite ExecCtx_Flush_idle by reflexivity. reflexivity. }
    split; [apply events_since_app; simpl; by rewrite <- !app_assoc|].
    split; [simpl; by apply delete_insert_id|reflexivity].
Qed.

(** The theorem for a caller's closure, from the empty world. *)
Lemma failing_synthetic_stream_op_from_transport_witness :
  let c := external_closure 7 None in
  let error := ErrorStatus 14 "reset" in
  exists op w1 batch w2,
    grpc_make_transport_stream_op (Some c) empty_world = Done op w1 /\
    made_transport_stream_op_at w1 op = Some batch /\
    (grpc_transport_stream_op_batch_finish_with_failure_from_transport
       batch error ;; ExecCtx_Flush 3) w1 = Done tt w2 /\
    events_since w1 w2 =
      [EvSchedule (transport_stream_op_wrapper op) error;
       EvInvoke (transport_stream_op_wrapper op) error;
       EvDelete op; EvInvoke c error] /\
    heap w2 = heap empty_world.
Proof.
  intros c error.
  destruct (failing_synthetic_stream_op_from_transport (Some c) error 0
              empty_world eq_refl)
    as (op & w1 & batch & w2 & Hmake & Hbatch & Hrun & Hev & Hheap & _).
  { intros c' Hc'. injection Hc' as <-. exists 7%positive. reflexivity. }
  exists op, w1, batch, w2. repeat split; assumption.
Defined.

(** X8.  Failure propagation reads the three receive flags, the payload's
    ready closures and [on_complete], and nothing else of the batch: with
    any other send flags and cancel flag, each of the three functions ends
    in the same state. *)
Theorem failure_propagation_ignores_send_flags
    (batch : grpc_transport_stream_op_batch)
    (send_initial send_trailing send_msg cancel : bool)
    (error : grpc_error_handle) (closures : CallCombinerClosureList)
    (call_combiner : addr) (w : World) :
  let batch' :=
    set_send_flags send_initial send_trailing send_msg cancel batch in
  grpc_transport_stream_op_batch_queue_finish_with_failure
    batch' error closures w =
  grpc_transport_stream_op_batch_queue_finish_with_failure
    batch error closures w /\
  grpc_transport_stream_op_batch_finish_with_failure
    batch' error call_combiner w =
  grpc_transport_stream_op_batch_finish_with_failure
    batch error call_combiner w /\
  grpc_transport_stream_op_batch_finish_with_failure_from_transport
    batch' error w =
  grpc_transport_stream_op_batch_finish_with_failure_from_transport
    batch error w.
Proof.
  intros batch'.
  split; [rewrite !queue_finish_with_failure_run; reflexivity|].
  split; [|rewrite !from_transport_run; reflexivity].
  unfold grpc_transport_stream_op_batch_finish_with_failure, bind.
  rewrite !queue_finish_with_failure_run. reflexivity.
Qed.

(** X9.  The degenerate batch.  The queueing function gives the list back
    unchanged exactly when the batch requests no slot, and the transport
    path leaves the world unchanged exactly when no requested slot holds a
    closure. *)
Theorem nothing_requested_nothing_done
    (batch : grpc_transport_stream_op_batch) (error : grpc_error_handle)
    (closures : CallCombinerClosureList) (w : World) :
  (grpc_transport_stream_op_batch_queue_finish_with_failure
     batch error closures w = Done closures w <->
   requested_count batch = 0%nat) /\
  (grpc_transport_stream_op_batch_finish_with_failure_from_transport
     batch error w = Done tt w <->
   concat (map (slot_runs batch error) all_slots) = []).
Proof.
  assert (Hruns : omap entry_runnable (failure_entries batch error) =
                  concat (map (slot_runs batch error) all_slots)).
  { unfold failure_entries, slot_entries, slot_runs.
    destruct batch as [oc [c1 c2 c3] si st sm ri rm rt cs].
    destruct ri, rm, rt, oc, c1, c2, c3; reflexivity. }
  split.
  - rewrite queue_finish_with_failure_run, <- (failure_entries_length batch error).
    split.
    + intros Heq. injection Heq as Heq.
      rewrite <- (app_nil_r closures) in Heq at 2.
      apply app_inv_head in Heq. by rewrite Heq.
    + intros Hlen. apply nil_length_inv in Hlen. by rewrite Hlen, app_nil_r.
  - rewrite from_transport_run. cbv zeta. rewrite Hruns.
    split.
    + intros Heq. injection Heq as Heq.
      apply (f_equal exec_ctx_closures) in Heq. simpl in Heq.
      rewrite <- (app_nil_r (exec_ctx_closures w)) in Heq at 2.
      by apply app_inv_head in Heq.
    + intros ->. destruct w. unfold set_trace, set_exec_ctx. simpl.
      by rewrite !app_nil_r.
Qed.

(** The theorem at a batch that only sends a message and names no
    [on_complete]. *)
Lemma nothing_requested_nothing_done_witness :
  let batch :=
    mkBatch None (mkPayload None None None)
            false false true false false false false in
  grpc_transport_stream_op_batch_queue_finish_with_failure
    batch OkStatus [] empty_world = Done [] empty_world /\
  grpc_transport_stream_op_batch_finish_with_failure_from_transport
    batch OkStatus empty_world = Done tt empty_world.
Proof.
  intros batch.
  destruct (nothing_requested_nothing_done batch OkStatus [] empty_world)
    as [[_ Hqueue] [_ Htransport]].
  split; [apply Hqueue|apply Htransport]; reflexivity.
Defined.

(** ** Chains of stream-op wrappers *)

Lemma stream_op_chain_delete (h : gmap addr made_alloc) (a : addr)
    (ops : list addr) (last : option grpc_closure) :
  a ∉ ops ->
  stream_op_chain (delete a h) ops last = stream_op_chain h ops last.
Proof.
  induction ops as [|op rest IH]; intros Hnotin; [reflexivity|].
  apply not_elem_of_cons in Hnotin as [Hne Hrest].
  simpl. rewrite lookup_delete_ne by done. rewrite IH by exact Hrest.
  reflexivity.
Qed.

Lemma stream_op_chain_head (h : gmap addr made_alloc) (op : addr)
    (rest : list addr) (last : option grpc_closure) :
  stream_op_chain h (op :: rest) last = true ->
  exists o,
    h !! op = Some (AllocTransportStreamOp o) /\
    mtso_inner_on_complete o =
      match rest with
      | [] => last
      | next :: _ => Some (transport_stream_op_wrapper next)
      end /\
    stream_op_chain h rest last = true.
Proof.
  simpl. destruct (h !! op) as [[o|o]|]; try discriminate.
  intros Hchain. apply andb_true_iff in Hchain as [Hinner Hrest].
  apply bool_decide_eq_true in Hinner. by exists o.
Qed.

(** X10.  A chain of synthetic stream operations, each created with the
    previous one's wrapper as its [on_complete].  Calling the outermost
    wrapper with an error runs down the whole chain inline: every wrapper is
    called once with that error and frees its own allocation before it calls
    the next, and the caller's closure at the end is called once with the
    same error. *)
Theorem stream_op_chain_fires (rest : list addr) :
  forall (first : addr) (last : option grpc_closure)
         (error : grpc_error_handle) (fuel : nat) (w : World),
    NoDup (first :: rest) ->
    stream_op_chain (heap w) (first :: rest) last = true ->
    (forall c, last = Some c -> is_external c) ->
    grpc_closure_invoke (S (S (length rest)) + fuel)
      (transport_stream_op_wrapper first) error w =
    Done tt
      (set_trace (trace w ++ chain_events (first :: rest) last error)
         (set_heap (fold_left (fun h op => delete op h) (first :: rest) (heap w))
            w)).
Proof.
  induction rest as [|next rest IH]; intros first last error fuel w Hnodup
    Hchain Hext.
  - apply stream_op_chain_head in Hchain as (o & Hlive & Hinner & _).
    unfold transport_stream_op_wrapper, GRPC_CLOSURE_INIT.
    change (S (S (length (@nil addr))) + fuel)%nat with (S (S fuel)).
    rewrite (invoke_made_transport_stream_op_wrapper (S fuel) first o)
      by exact Hlive.
    rewrite Hinner. unfold chain_events. destruct last as [c|].
    + rewrite grpc_closure_invoke_external by (by apply Hext).
      destruct w. unfold set_trace, set_heap. simpl.
      by rewrite <- !app_assoc.
    + destruct w. unfold set_trace, set_heap. simpl. reflexivity.
  - apply stream_op_chain_head in Hchain as (o & Hlive & Hinner & Hrest).
    apply NoDup_cons in Hnodup as [Hnotin Hnodup].
    unfold transport_stream_op_wrapper at 1. unfold GRPC_CLOSURE_INIT.
    change (S (S (length (next :: rest))) + fuel)%nat
      with (S (S (S (length rest)) + fuel)).
    rewrite (invoke_made_transport_stream_op_wrapper _ first o) by exact Hlive.
    rewrite Hinner.
    rewrite (IH next last); [|exact Hnodup| |exact Hext].
    + destruct w. unfold set_trace, set_heap, chain_events. simpl.
      by rewrite <- !app_assoc.
    + cbn [heap set_trace set_heap].
      rewrite stream_op_chain_delete by exact Hnotin. exact Hrest.
Qed.

(** The theorem at a chain of two operations made by the factory: the second
    is created with the wrapper of the first as its [on_complete]. *)
Lemma stream_op_chain_fires_witness :
  let c := external_closure 7 None in
  let error := ErrorStatus 14 "reset" in
  exists op1 w1 op2 w2 w3,
    grpc_make_transport_stream_op (Some c) empty_world = Done op1 w1 /\
    grpc_make_transport_stream_op
      (Some (transport_stream_op_wrapper op1)) w1 = Done op2 w2 /\
    grpc_closure_invoke 3 (transport_stream_op_wrapper op2) error w2 =
      Done tt w3 /\
    events_since w2 w3 =
      [EvInvoke (transport_stream_op_wrapper op2) error; EvDelete op2;
       EvInvoke (transport_stream_op_wrapper op1) error; EvDelete op1;
       EvInvoke c error] /\
    heap w3 = ∅.
Proof.
  intros c error.
  destruct (grpc_make_transport_stream_op (Some c) empty_world)
    as [op1 w1| |] eqn:Hmake1; try (vm_compute in Hmake1; discriminate).
  destruct (grpc_make_transport_stream_op
              (Some (transport_stream_op_wrapper op1)) w1)
    as [op2 w2| |] eqn:Hmake2;
    [|vm_compute in Hmake1; injection Hmake1 as <- <-;
      vm_compute in Hmake2; discriminate..].
  vm_compute in Hmake1. injection Hmake1 as <- <-.
  vm_compute in Hmake2. injection Hmake2 as <- <-.
  eexists _, _, _, _, _. split; [reflexivity|]. split; [reflexivity|].
  split.
  - apply (stream_op_chain_fires [1%positive] 2%positive (Some c) error 0).
    + compute_done.
    + vm_compute. reflexivity.
    + intros c' Hc'. injection Hc' as <-. exists 7%positive. reflexivity.
  - split; vm_compute; reflexivity.
Defined.

(** ** Stream destruction, end to end *)

Lemma EventEngine_drain_step (fresh_flags : Z) (fuel : nat) (t : engine_task)
    (rest : list engine_task) (w : World) :
  event_engine_tasks w = t :: rest ->
  EventEngine_drain fresh_flags (S fuel) w =
  (run_engine_task fresh_flags fuel t ;; EventEngine_drain fresh_flags fuel)
    (set_event_engine_tasks rest w).
Proof. intros Hq. simpl. by rewrite Hq. Qed.

Lemma EventEngine_drain_idle (fresh_flags : Z) (fuel : nat) (w : World) :
  event_engine_tasks w = [] -> EventEngine_drain fresh_flags fuel w = Done tt w.
Proof. intros Hq. destruct fuel; simpl; by rewrite Hq. Qed.

(** X11.  From [grpc_stream_ref_init] to the callback.  A refcount is
    initialised with a caller's callback and argument and later destroyed on
    a thread with nothing pending.  Once that thread's context is flushed and
    the event engine has run its tasks, the callback has been called exactly
    once, with that argument and a success status, whichever way the
    resource-loop bit pointed.  The flush of the destroying thread calls it
    when the bit is clear and does not call it when the bit is set.  Nothing
    is left pending and the thread's context is as before. *)
Theorem stream_destroy_calls_registered_callback_once
    (resource_loop_flag fresh_flags : Z)
    (uninitialised : grpc_stream_refcount) (initial_refs : Z)
    (f : positive) (cb_arg : option addr) (object_type : option string)
    (traced : bool) (fuel : nat) (w : World) :
  exec_ctx_closures w = [] ->
  event_engine_tasks w = [] ->
  let refcount :=
    grpc_stream_ref_init uninitialised initial_refs (Some (cb_external f))
      cb_arg object_type traced in
  let callback := external_closure f cb_arg in
  exists w1 w2 w3,
    grpc_stream_destroy resource_loop_flag refcount w = Done tt w1 /\
    ExecCtx_Flush (2 + fuel) w1 = Done tt w2 /\
    EventEngine_drain fresh_flags (3 + fuel) w2 = Done tt w3 /\
    invocations_of callback (events_since w w2) =
      (if Z.land (exec_ctx_flags w) resource_loop_flag =? 0
       then [OkStatus] else []) /\
    invocations_of callback (events_since w w3) = [OkStatus] /\
    exec_ctx_closures w3 = [] /\
    event_engine_tasks w3 = [] /\
    exec_ctx_flags w3 = exec_ctx_flags w /\
    heap w3 = heap w.
Proof.
  intros Hidle Hengine refcount callback.
  assert (Hdestroy : destroy refcount = callback) by reflexivity.
  assert (Hext : is_external callback) by (by exists f).
  rewrite grpc_stream_destroy_run, Hdestroy.
  destruct (Z.land (exec_ctx_flags w) resource_loop_flag =? 0); simpl negb;
    cbv iota.
  - eexists _, _, _. split; [reflexivity|].
    split.
    { change (2 + fuel)%nat with (S (S fuel)).
      rewrite (ExecCtx_Flush_step _ callback OkStatus [])
        by (simpl; by rewrite Hidle).
      unfold bind. rewrite grpc_closure_invoke_external by exact Hext.
      rewrite ExecCtx_Flush_idle by reflexivity. reflexivity. }
    split; [apply EventEngine_drain_idle; exact Hengine|].
    assert (Hev : forall w', trace w' = (trace w ++ [EvSchedule callback OkStatus])
                                        ++ [EvInvoke callback OkStatus] ->
                  invocations_of callback (events_since w w') = [OkStatus]).
    { intros w' Htrace. rewrite <- app_assoc in Htrace.
      rewrite (events_since_app _ _ _ Htrace). simpl. by case_decide. }
    split; [by apply Hev|]. split; [by apply Hev|].
    repeat split; simpl; (assumption || reflexivity).
  - eexists _, _, _. split; [reflexivity|].
    split; [apply ExecCtx_Flush_idle; simpl; exact Hidle|].
    split.
    { change (3 + fuel)%nat with (S (S (S fuel))).
      rewrite (EventEngine_drain_step _ _ (StreamDestroyTask refcount) [])
        by (simpl; by rewrite Hengine).
      unfold bind. rewrite run_engine_task_external by exact Hext.
      rewrite EventEngine_drain_idle by reflexivity. reflexivity. }
    split.
    { rewrite (events_since_app w _ [EvEngineRun (StreamDestroyTask refcount)])
        by reflexivity. reflexivity. }
    split.
    { rewrite (events_since_app w _
                 [EvEngineRun (StreamDestroyTask refcount);
                  EvSchedule callback OkStatus; EvInvoke callback OkStatus]).
      - simpl. by case_decide.
      - simpl. by rewrite <- app_assoc. }
    repeat split; simpl; (assumption || reflexivity).
Qed.

(** The theorem on a thread inside a resource loop (bit 2 of flags 3). *)
Lemma stream_destroy_calls_registered_callback_once_witness :
  let w := set_exec_ctx 3 [] empty_world in
  let refcount := fresh_stream_refcount 7 None in
  exists w1 w2 w3,
    grpc_stream_destroy 2 refcount w = Done tt w1 /\
    ExecCtx_Flush 2 w1 = Done tt w2 /\
    EventEngine_drain 1 3 w2 = Done tt w3 /\
    invocations_of (external_closure 7 None) (events_since w w2) = [] /\
    invocations_of (external_closure 7 None) (events_since w w3) = [OkStatus].
Proof.
  intros w refcount.
  destruct (stream_destroy_calls_registered_callback_once 2 1
              (mkStreamRefcount (mkRefCount 0 None) zeroed_closure None)
              1 7%positive None None false 0 w eq_refl eq_refl)
    as (w1 & w2 & w3 & Hdestroy & Hflush & Hdrain & Hthread & Hall & _).
  exists w1, w2, w3. repeat split; assumption.
Defined.

(** ** Chains of transport-op wrappers *)

Lemma transport_op_chain_delete (h : gmap addr made_alloc) (a : addr)
    (ops : list addr) (last : option grpc_closure) :
  a ∉ ops ->
  transport_op_chain (delete a h) ops last = transport_op_chain h ops last.
Proof.
  induction ops as [|op rest IH]; intros Hnotin; [reflexivity|].
  apply not_elem_of_cons in Hnotin as [Hne Hrest].
  simpl. rewrite lookup_delete_ne by done. rewrite IH by exact Hrest.
  reflexivity.
Qed.

Lemma transport_op_chain_head (h : gmap addr made_alloc) (op : addr)
    (rest : list addr) (last : option grpc_closure) :
  transport_op_chain h (op :: rest) last = true ->
  exists o,
    h !! op = Some (AllocTransportOp o) /\
    mto_inner_on_complete o =
      match rest with
      | [] => last
      | next :: _ => Some (transport_op_wrapper next)
      end /\
    transport_op_chain h rest last = true.
Proof.
  simpl. destruct (h !! op) as [[o|o]|]; try discriminate.
  intros Hchain. apply andb_true_iff in Hchain as [Hinner Hrest].
  apply bool_decide_eq_true in Hinner. by exists o.
Qed.

Lemma transport_op_chain_flush (rest : list addr) :
  forall (first : addr) (last : option grpc_closure)
         (error : grpc_error_handle) (fuel : nat) (w : World),
    exec_ctx_closures w = [(transport_op_wrapper first, error)] ->
    NoDup (first :: rest) ->
    transport_op_chain (heap w) (first :: rest) last = true ->
    (forall c, last = Some c -> is_external c) ->
    ExecCtx_Flush (S (S (S (length rest))) + fuel) w =
    Done tt
      (set_trace (trace w ++ op_chain_events (first :: rest) last error)
         (set_heap (fold_left (fun h op => delete op h) (first :: rest) (heap w))
            (set_exec_ctx (exec_ctx_flags w) [] w))).
Proof.
  induction rest as [|next rest IH]; intros first last error fuel w Hq Hnodup
    Hchain Hext.
  - apply transport_op_chain_head in Hchain as (o & Hlive & Hinner & _).
    change (S (S (S (length (@nil addr)))) + fuel)%nat with (S (S (S fuel))).
    rewrite (ExecCtx_Flush_step _ _ _ [] w) by exact Hq. unfold bind.
    unfold transport_op_wrapper, GRPC_CLOSURE_INIT.
    rewrite (invoke_made_transport_op_wrapper _ first o) by exact Hlive.
    rewrite Hinner. destruct last as [c|].
    + rewrite (ExecCtx_Flush_step _ c error []) by reflexivity. unfold bind.
      rewrite grpc_closure_invoke_external by (by apply Hext).
      rewrite ExecCtx_Flush_idle by reflexivity.
      destruct w. unfold set_trace, set_heap, set_exec_ctx. simpl.
      by rewrite <- !app_assoc.
    + rewrite ExecCtx_Flush_idle by reflexivity.
      destruct w. unfold set_trace, set_heap, set_exec_ctx. simpl.
      reflexivity.
  - apply transport_op_chain_head in Hchain as (o & Hlive & Hinner & Hrest).
    apply NoDup_cons in Hnodup as [Hnotin Hnodup].
    change (S (S (S (length (next :: rest)))) + fuel)%nat
      with (S (S (S (S (length rest)) + fuel))).
    rewrite (ExecCtx_Flush_step _ _ _ [] w) by exact Hq. unfold bind.
    unfold transport_op_wrapper, GRPC_CLOSURE_INIT.
    rewrite (invoke_made_transport_op_wrapper _ first o) by exact Hlive.
    rewrite Hinner.
    change (S (S (S (length rest)) + fuel))%nat
      with (S (S (S (length rest))) + fuel)%nat.
    rewrite (IH next last error); [|reflexivity|exact Hnodup| |exact Hext].
    + destruct w. unfold set_trace, set_heap, set_exec_ctx. simpl.
      rewrite <- !app_assoc. reflexivity.
    + cbn [heap set_trace set_heap set_exec_ctx].
      rewrite transport_op_chain_delete by exact Hnotin. exact Hrest.
Qed.

(** X12.  A chain of synthetic transport ops, each created with the previous
    one's [on_consumed] as its [on_complete].  The transport schedules the
    outermost wrapper with an error on a context with nothing pending; the
    flush then works down the chain: each wrapper is called once with that
    error, schedules the next and frees its own allocation, and the caller's
    closure at the end is called once with the same error.  Every allocation
    of the chain is freed and nothing stays pending. *)
Theorem transport_op_chain_fires (rest : list addr) (first : addr)
    (last : option grpc_closure) (error : grpc_error_handle) (fuel : nat)
    (w : World) :
  exec_ctx_closures w = [] ->
  NoDup (first :: rest) ->
  transport_op_chain (heap w) (first :: rest) last = true ->
  (forall c, last = Some c -> is_external c) ->
  (ExecCtx_Run (Some (transport_op_wrapper first)) error ;;
   ExecCtx_Flush (S (S (S (length rest))) + fuel)) w =
  Done tt
    (set_trace
       (trace w ++
        EvSchedule (transport_op_wrapper first) error ::
        op_chain_events (first :: rest) last error)
       (set_heap (fold_left (fun h op => delete op h) (first :: rest) (heap w))
          w)).
Proof.
  intros Hidle Hnodup Hchain Hext.
  unfold bind, ExecCtx_Run.
  rewrite (transport_op_chain_flush rest first last error fuel);
    [|simpl; by rewrite Hidle|exact Hnodup|exact Hchain|exact Hext].
  destruct w. unfold set_trace, set_heap, set_exec_ctx. simpl in *.
  rewrite Hidle, <- !app_assoc. reflexivity.
Qed.

(** The theorem at a chain of two ops made by the factory: the second is
    created with the [on_consumed] of the first as its [on_complete]. *)
Lemma transport_op_chain_fires_witness :
  let c := external_closure 7 None in
  let error := ErrorStatus 14 "reset" in
  exists op1 w1 op2 w2 w3,
    grpc_make_transport_op (Some c) empty_world = Done op1 w1 /\
    grpc_make_transport_op (Some (transport_op_wrapper op1)) w1 =
      Done op2 w2 /\
    (ExecCtx_Run (Some (transport_op_wrapper op2)) error ;; ExecCtx_Flush 4)
      w2 = Done tt w3 /\
    events_since w2 w3 =
      [EvSchedule (transport_op_wrapper op2) error;
       EvInvoke (transport_op_wrapper op2) error;
       EvSchedule (transport_op_wrapper op1) error; EvDelete op2;
       EvInvoke (transport_op_wrapper op1) error;
       EvSchedule c error; EvDelete op1;
       EvInvoke c error] /\
    heap w3 = ∅ /\
    exec_ctx_closures w3 = [].
Proof.
  intros c error.
  destruct (grpc_make_transport_op (Some c) empty_world)
    as [op1 w1| |] eqn:Hmake1; try (vm_compute in Hmake1; discriminate).
  destruct (grpc_make_transport_op (Some (transport_op_wrapper op1)) w1)
    as [op2 w2| |] eqn:Hmake2;
    [|vm_compute in Hmake1; injection Hmake1 as <- <-;
      vm_compute in Hmake2; discriminate..].
  vm_compute in Hmake1. injection Hmake1 as <- <-.
  vm_compute in Hmake2. injection Hmake2 as <- <-.
  eexists _, _, _, _, _. split; [reflexivity|]. split; [reflexivity|].
  split.
  - apply (transport_op_chain_fires [1%positive] 2%positive (Some c) error 0).
    + reflexivity.
    + compute_done.
    + vm_compute. reflexivity.
    + intros c' Hc'. injection Hc' as <-. exists 7%positive. reflexivity.
  - repeat split; vm_compute; reflexivity.
Defined.
